(** * Interrupt-driven USART transmit queue (STM32L4xx)

    A shallow embedding of [Drivers/Device/Inc/usart.h] and
    [Drivers/Device/Src/usart.cpp]: the ring buffer [CircularBuffer<SIZE>],
    the driver [UsartDriver<BUFFER_SIZE>] with its Idle/Active flag, and the
    LPUART1 interrupt dispatcher with its process-wide instance pointer.

    Integers are [Z] with the [uint16_t] conversion written out ([u16]);
    [&] is [Z.land] (two's complement, as for C++ [int]); a [uint8_t] is a
    [Byte.byte]; the backing array is a list updated by index. *)

From Stdlib Require Import ZArith Lia List Bool.
From Stdlib Require Import Strings.Byte.
From stdpp Require Import base list gmap.

Local Open Scope Z_scope.

(** ** Machine integers *)

(** Conversion of an [int] value to [uint16_t]. *)
Definition u16 (x : Z) : Z := x mod 65536.

(** [static_assert((SIZE & (SIZE - 1)) == 0, ...)] of [CircularBuffer]. *)
Definition static_assert_pow2 (SIZE : Z) : bool :=
  Z.land SIZE (SIZE - 1) =? 0.

(** A capacity is a power of two that fits the [uint16_t] template
    parameter: [1, 2, 4, ..., 32768]. *)
Definition pow2_capacity (SIZE : Z) : Prop :=
  exists k, 0 <= k <= 15 /\ SIZE = 2 ^ k.

(** ** The ring buffer: [template<uint16_t SIZE> class CircularBuffer] *)

Module CircularBuffer.

(** [uint8_t buffer[SIZE]; volatile uint16_t head; volatile uint16_t tail]. *)
Record t : Type := mk {
  buffer : list byte;
  head : Z;
  tail : Z
}.

Section Ops.
Variable SIZE : Z.

(** [static constexpr uint16_t MASK = SIZE - 1]. *)
Definition MASK : Z := u16 (SIZE - 1).

(** Default construction: both indices are 0 and the array holds
    whatever the memory [mem] held (it is not initialised). *)
Definition create (mem : list byte) : t :=
  {| buffer := mem; head := 0; tail := 0 |}.

(** [bool put(uint8_t data)].  The array write at an index outside the
    array is undefined behaviour in C++; the list update leaves the
    list as it is there.  Indices of a well-formed buffer ([wf] below)
    are always inside. *)
Definition put (data : byte) (b : t) : bool * t :=
  let next_head := u16 (Z.land (head b + 1) MASK) in
  if next_head =? tail b then (false, b)
  else (true, {| buffer := <[Z.to_nat (head b) := data]> (buffer b);
                 head := next_head;
                 tail := tail b |}).

(** [buffer[i]] as a read; outside the array (undefined behaviour in
    C++) the model reads [x00]. *)
Definition read (b : t) (i : Z) : byte :=
  default x00 (buffer b !! Z.to_nat i).

(** [bool get(uint8_t& data)]: [None] is the [false] result (and [data]
    is left alone), [Some d] is [true] with [data = d]. *)
Definition get (b : t) : option byte * t :=
  if head b =? tail b then (None, b)
  else (Some (read b (tail b)),
        {| buffer := buffer b;
           head := head b;
           tail := u16 (Z.land (tail b + 1) MASK) |}).

Definition isEmpty (b : t) : bool := head b =? tail b.

Definition isFull (b : t) : bool := Z.land (head b + 1) MASK =? tail b.

Definition availableSpace (b : t) : Z :=
  u16 (Z.land (tail b - head b - 1) MASK).

Definition size (b : t) : Z := u16 (Z.land (head b - tail b) MASK).

Definition clear (b : t) : t :=
  {| buffer := buffer b; head := 0; tail := 0 |}.

(** *** Well-formed buffers and the queue they hold *)

(** The array has [SIZE] cells and both indices are inside it. *)
Definition wf (b : t) : Prop :=
  length (buffer b) = Z.to_nat SIZE /\
  0 <= head b < SIZE /\ 0 <= tail b < SIZE.

(** The [n] cells found by walking from index [i] the way [get] walks
    [tail]. *)
Fixpoint walk (b : t) (n : nat) (i : Z) : list byte :=
  match n with
  | O => []
  | S n' => read b i :: walk b n' (u16 (Z.land (i + 1) MASK))
  end.

(** The stored bytes, oldest first: the cells from [tail] up to
    [head]. *)
Definition contents (b : t) : list byte :=
  walk b (Z.to_nat ((head b - tail b) mod SIZE)) (tail b).

(** A sequence of [put] calls, with the result of each. *)
Fixpoint put_all (ds : list byte) (b : t) : list bool * t :=
  match ds with
  | [] => ([], b)
  | d :: ds' =>
      let '(ok, b1) := put d b in
      let '(oks, b2) := put_all ds' b1 in
      (ok :: oks, b2)
  end.

(** A sequence of [n] [get] calls, with the result of each. *)
Fixpoint get_all (n : nat) (b : t) : list (option byte) * t :=
  match n with
  | O => ([], b)
  | S n' =>
      let '(r, b1) := get b in
      let '(rs, b2) := get_all n' b1 in
      (r :: rs, b2)
  end.

(** The three mutators, for reachability. *)
Inductive op : Type :=
| Put (d : byte)
| Get
| Clear.

Definition step (o : op) (b : t) : t :=
  match o with
  | Put d => snd (put d b)
  | Get => snd (get b)
  | Clear => clear b
  end.

Definition run (os : list op) (b : t) : t :=
  fold_left (fun acc o => step o acc) os b.

End Ops.
End CircularBuffer.

(** ** The driver: [template<uint16_t BUFFER_SIZE> class UsartDriver] *)

(** [enum class PeripheralType]. *)
Inductive PeripheralType : Type :=
| USART_1
| USART_2
| USART_3
| LPUART_1.

Global Instance PeripheralType_eq_dec : EqDecision PeripheralType.
Proof. solve_decision. Defined.

(** The peripheral base addresses a [usartInstance] can point to. *)
Inductive UsartBase : Type :=
| LPUART1
| USART1
| USART2
| USART3.

(** [struct Config]: six [uint32_t] fields. *)
Record Config : Type := mkConfig {
  baudRate : Z;
  wordLength : Z;
  stopBits : Z;
  parity : Z;
  hwFlowControl : Z;
  transferDirection : Z
}.

(** An address of a driver object; [None] at type [option ptr] is
    [nullptr]. *)
Definition ptr : Type := positive.

(** What the driver does to the outside world, in program order.
    [TransmitByte p d] records an entry into [transmitByte(d)] of the
    driver for peripheral [p]: the adapter's transmit primitive.  The other
    events are the low-level calls of the source. *)
Inductive HwEvent : Type :=
| TransmitByte (p : PeripheralType) (d : byte)
| LL_LPUART_TransmitData8 (d : byte)
| LL_EnableClock (p : PeripheralType)
| LL_LPUART_SetBaudRate (baud : Z)
| LL_LPUART_SetDataWidth (w : Z)
| LL_LPUART_SetStopBitsLength (s : Z)
| LL_LPUART_SetParity (p : Z)
| LL_LPUART_SetTransferDirection (d : Z)
| LL_LPUART_SetHWFlowCtrl (f : Z)
| LL_LPUART_Enable
| LL_LPUART_EnableIT_TXE
| NVIC_SetPriority_LPUART1
| NVIC_EnableIRQ_LPUART1.

(** The bytes handed to the transmit primitive of peripheral [p], oldest
    first. *)
Definition handed (p : PeripheralType) (tr : list HwEvent) : list byte :=
  omap (fun e => match e with
                 | TransmitByte q d => if decide (q = p) then Some d else None
                 | _ => None
                 end) tr.

(** The bytes written to the LPUART transmit data register. *)
Definition lpuart_tdr (tr : list HwEvent) : list byte :=
  omap (fun e => match e with
                 | LL_LPUART_TransmitData8 d => Some d
                 | _ => None
                 end) tr.

Definition getDefaultLpuartConfig : Config :=
  {| baudRate := 115200; wordLength := 0; stopBits := 0; parity := 0;
     hwFlowControl := 0; transferDirection := 12 |}.

Definition getDefaultUsartConfig : Config :=
  {| baudRate := 115200; wordLength := 0; stopBits := 0; parity := 0;
     hwFlowControl := 0; transferDirection := 0 |}.

(** A [uint8_t] or [char] promoted to [int]. *)
Definition byte_val (b : byte) : Z := Z.of_N (Byte.to_N b).

(** The digit strings of [sendHex]: ["0123456789ABCDEF"] and
    ["0123456789abcdef"], as ASCII codes. *)
Definition hexChars (uppercase : bool) : list byte :=
  if uppercase
  then [x30; x31; x32; x33; x34; x35; x36; x37; x38; x39;
        x41; x42; x43; x44; x45; x46]
  else [x30; x31; x32; x33; x34; x35; x36; x37; x38; x39;
        x61; x62; x63; x64; x65; x66].

(** [hexChars[i]]; the index is always a nibble, so inside the string. *)
Definition hexChar (uppercase : bool) (i : Z) : byte :=
  nth (Z.to_nat i) (hexChars uppercase) x00.

(** [hexChars[(byte >> 4) & 0x0F]] and [hexChars[byte & 0x0F]]. *)
Definition highNibbleChar (uppercase : bool) (b : byte) : byte :=
  hexChar uppercase (Z.land (Z.shiftr (byte_val b) 4) 15).

Definition lowNibbleChar (uppercase : bool) (b : byte) : byte :=
  hexChar uppercase (Z.land (byte_val b) 15).

(** [((byte >> bit) & 0x01) ? '1' : '0']. *)
Definition bitChar (b : byte) (bit : Z) : byte :=
  if Z.land (Z.shiftr (byte_val b) bit) 1 =? 0 then x30 else x31.

(** The value an ASCII hexadecimal digit stands for. *)
Definition hex_digit_value (c : byte) : option Z :=
  let v := byte_val c in
  if (48 <=? v) && (v <=? 57) then Some (v - 48)
  else if (65 <=? v) && (v <=? 70) then Some (v - 55)
  else if (97 <=? v) && (v <=? 102) then Some (v - 87)
  else None.

(** The number a string of ['0'] and ['1'] characters stands for, most
    significant digit first. *)
Definition binary_value (cs : list byte) : Z :=
  fold_left (fun acc c => 2 * acc + (byte_val c - 48)) cs 0.

Module UsartDriver.

Record t : Type := mk {
  peripheralType : PeripheralType;
  usartInstance : option UsartBase;
  config : Config;
  txBuffer : CircularBuffer.t;
  transmissionActive : bool
}.

Definition set_txBuffer (buf : CircularBuffer.t) (drv : t) : t :=
  {| peripheralType := peripheralType drv;
     usartInstance := usartInstance drv;
     config := config drv;
     txBuffer := buf;
     transmissionActive := transmissionActive drv |}.

Definition set_transmissionActive (a : bool) (drv : t) : t :=
  {| peripheralType := peripheralType drv;
     usartInstance := usartInstance drv;
     config := config drv;
     txBuffer := txBuffer drv;
     transmissionActive := a |}.

Definition set_config (cfg : Config) (drv : t) : t :=
  {| peripheralType := peripheralType drv;
     usartInstance := usartInstance drv;
     config := cfg;
     txBuffer := txBuffer drv;
     transmissionActive := transmissionActive drv |}.

(** [explicit UsartDriver(PeripheralType peripheral)].  [config] and the
    buffer array are not initialised by the constructor: they hold what
    the memory held ([cfg0], [mem]). *)
Definition new (peripheral : PeripheralType) (cfg0 : Config)
    (mem : list byte) : t :=
  {| peripheralType := peripheral;
     usartInstance :=
       match peripheral with
       | LPUART_1 => Some LPUART1
       | USART_1 => Some USART1
       | USART_2 => Some USART2
       | USART_3 => Some USART3
       end;
     config := cfg0;
     txBuffer := CircularBuffer.create mem;
     transmissionActive := false |}.

(** [void registerLpuart1Handler(void* instance)], on the global
    [g_lpuart1Instance]. *)
Definition registerLpuart1Handler (instance : option ptr)
    (g : option ptr) : option ptr := instance.

(** [void initializeLpuart()]. *)
Definition initializeLpuart (this : ptr) (drv : t) (g : option ptr)
    (tr : list HwEvent) : option ptr * list HwEvent :=
  let tr1 := tr ++ [LL_EnableClock LPUART_1;
                    LL_LPUART_SetBaudRate (baudRate (config drv));
                    LL_LPUART_SetDataWidth (wordLength (config drv));
                    LL_LPUART_SetStopBitsLength (stopBits (config drv));
                    LL_LPUART_SetParity (parity (config drv));
                    LL_LPUART_SetTransferDirection
                      (transferDirection (config drv));
                    LL_LPUART_SetHWFlowCtrl (hwFlowControl (config drv));
                    LL_LPUART_Enable] in
  let g1 := registerLpuart1Handler (Some this) g in
  (g1, tr1 ++ [LL_LPUART_EnableIT_TXE;
               NVIC_SetPriority_LPUART1;
               NVIC_EnableIRQ_LPUART1]).

(** [void initializeUsart()]: only the clock is enabled. *)
Definition initializeUsart (drv : t) (tr : list HwEvent) : list HwEvent :=
  match peripheralType drv with
  | USART_1 => tr ++ [LL_EnableClock USART_1]
  | USART_2 => tr ++ [LL_EnableClock USART_2]
  | USART_3 => tr ++ [LL_EnableClock USART_3]
  | LPUART_1 => tr
  end.

(** [bool initialize(const Config& cfg)].  [this] is the address of the
    driver object, [g] the global [g_lpuart1Instance]. *)
Definition initialize (this : ptr) (cfg : Config) (drv : t)
    (g : option ptr) (tr : list HwEvent)
    : bool * t * option ptr * list HwEvent :=
  let drv1 := set_config cfg drv in
  match peripheralType drv1 with
  | LPUART_1 =>
      let '(g1, tr1) := initializeLpuart this drv1 g tr in
      (true, drv1, g1, tr1)
  | USART_1 | USART_2 | USART_3 =>
      (true, drv1, g, initializeUsart drv1 tr)
  end.

(** [void transmitByte(uint8_t data)]: only the LPUART writes the byte
    to hardware; the USART cases are empty in the source. *)
Definition transmitByte (data : byte) (drv : t) (tr : list HwEvent)
    : list HwEvent :=
  let tr1 := tr ++ [TransmitByte (peripheralType drv) data] in
  match peripheralType drv with
  | LPUART_1 => tr1 ++ [LL_LPUART_TransmitData8 data]
  | USART_1 | USART_2 | USART_3 => tr1
  end.

Definition isTransmissionActive (drv : t) : bool := transmissionActive drv.

Section Methods.
Variable BUFFER_SIZE : Z.

Definition getAvailableSpace (drv : t) : Z :=
  CircularBuffer.availableSpace BUFFER_SIZE (txBuffer drv).

Definition getQueueSize (drv : t) : Z :=
  CircularBuffer.size BUFFER_SIZE (txBuffer drv).

Definition clearBuffer (drv : t) : t :=
  set_txBuffer (CircularBuffer.clear (txBuffer drv)) drv.

(** [void startTransmission()]. *)
Definition startTransmission (drv : t) (tr : list HwEvent)
    : t * list HwEvent :=
  if CircularBuffer.isEmpty (txBuffer drv) then (drv, tr)
  else
    let drv1 := set_transmissionActive true drv in
    match CircularBuffer.get BUFFER_SIZE (txBuffer drv1) with
    | (Some data, buf) =>
        let drv2 := set_txBuffer buf drv1 in
        (drv2, transmitByte data drv2 tr)
    | (None, buf) => (set_txBuffer buf drv1, tr)
    end.

(** [bool sendByte(uint8_t data)]. *)
Definition sendByte (data : byte) (drv : t) (tr : list HwEvent)
    : bool * t * list HwEvent :=
  let '(success, buf) := CircularBuffer.put BUFFER_SIZE data (txBuffer drv) in
  let drv1 := set_txBuffer buf drv in
  if success && negb (transmissionActive drv1)
  then let '(drv2, tr2) := startTransmission drv1 tr in (success, drv2, tr2)
  else (success, drv1, tr).

(** The loop of [sendData]: [put] each byte until one is refused;
    [sent] is the [uint16_t] counter. *)
Fixpoint sendData_loop (ds : list byte) (sent : Z) (buf : CircularBuffer.t)
    : Z * CircularBuffer.t :=
  match ds with
  | [] => (sent, buf)
  | d :: ds' =>
      match CircularBuffer.put BUFFER_SIZE d buf with
      | (true, buf1) => sendData_loop ds' (u16 (sent + 1)) buf1
      | (false, buf1) => (sent, buf1)
      end
  end.

(** [uint16_t sendData(const uint8_t* data, uint16_t length)]: [None] is
    the null pointer, [Some ds] a pointer to the [length] bytes [ds]. *)
Definition sendData (data : option (list byte)) (drv : t)
    (tr : list HwEvent) : Z * t * list HwEvent :=
  match data with
  | None => (0, drv, tr)
  | Some ds =>
      let '(sent, buf) := sendData_loop ds 0 (txBuffer drv) in
      let drv1 := set_txBuffer buf drv in
      if (0 <? sent) && negb (transmissionActive drv1)
      then let '(drv2, tr2) := startTransmission drv1 tr in (sent, drv2, tr2)
      else (sent, drv1, tr)
  end.

(** The loop of [sendString].  The list is the memory at [str]: the loop
    ends at the first NUL in it, and the end of the list stands for the
    terminating NUL. *)
Fixpoint sendString_loop (s : list byte) (sent : Z) (buf : CircularBuffer.t)
    : Z * CircularBuffer.t :=
  match s with
  | [] => (sent, buf)
  | c :: s' =>
      if byte_val c =? 0 then (sent, buf)
      else
        match CircularBuffer.put BUFFER_SIZE c buf with
        | (true, buf1) => sendString_loop s' (u16 (sent + 1)) buf1
        | (false, buf1) => (sent, buf1)
        end
  end.

(** [uint16_t sendString(const char* str)]. *)
Definition sendString (str : option (list byte)) (drv : t)
    (tr : list HwEvent) : Z * t * list HwEvent :=
  match str with
  | None => (0, drv, tr)
  | Some s =>
      let '(sent, buf) := sendString_loop s 0 (txBuffer drv) in
      let drv1 := set_txBuffer buf drv in
      if (0 <? sent) && negb (transmissionActive drv1)
      then let '(drv2, tr2) := startTransmission drv1 tr in (sent, drv2, tr2)
      else (sent, drv1, tr)
  end.

(** The loop of [sendHex]: two [put] calls per byte, high nibble first,
    leaving the loop at the first refused one. *)
Fixpoint sendHex_loop (uppercase : bool) (ds : list byte) (sent : Z)
    (buf : CircularBuffer.t) : Z * CircularBuffer.t :=
  match ds with
  | [] => (sent, buf)
  | d :: ds' =>
      match CircularBuffer.put BUFFER_SIZE (highNibbleChar uppercase d) buf with
      | (false, buf1) => (sent, buf1)
      | (true, buf1) =>
          let sent1 := u16 (sent + 1) in
          match CircularBuffer.put BUFFER_SIZE (lowNibbleChar uppercase d) buf1 with
          | (false, buf2) => (sent1, buf2)
          | (true, buf2) => sendHex_loop uppercase ds' (u16 (sent1 + 1)) buf2
          end
      end
  end.

(** [uint16_t sendHex(const uint8_t* data, uint16_t length, bool uppercase)]. *)
Definition sendHex (data : option (list byte)) (uppercase : bool) (drv : t)
    (tr : list HwEvent) : Z * t * list HwEvent :=
  match data with
  | None => (0, drv, tr)
  | Some ds =>
      let '(sent, buf) := sendHex_loop uppercase ds 0 (txBuffer drv) in
      let drv1 := set_txBuffer buf drv in
      if (0 <? sent) && negb (transmissionActive drv1)
      then let '(drv2, tr2) := startTransmission drv1 tr in (sent, drv2, tr2)
      else (sent, drv1, tr)
  end.

(** The inner loop of [sendBinary], [for (int bit = 7; bit >= 0; bit--)],
    with [n] bits left to send ([bit = n - 1]); [false] is the
    [goto exit_loops] of a refused [put]. *)
Fixpoint sendBinary_bits (b : byte) (n : nat) (sent : Z)
    (buf : CircularBuffer.t) : bool * Z * CircularBuffer.t :=
  match n with
  | O => (true, sent, buf)
  | S n' =>
      match CircularBuffer.put BUFFER_SIZE (bitChar b (Z.of_nat n')) buf with
      | (false, buf1) => (false, sent, buf1)
      | (true, buf1) => sendBinary_bits b n' (u16 (sent + 1)) buf1
      end
  end.

(** The outer loop of [sendBinary]. *)
Fixpoint sendBinary_loop (ds : list byte) (sent : Z) (buf : CircularBuffer.t)
    : Z * CircularBuffer.t :=
  match ds with
  | [] => (sent, buf)
  | d :: ds' =>
      match sendBinary_bits d 8 sent buf with
      | (true, sent1, buf1) => sendBinary_loop ds' sent1 buf1
      | (false, sent1, buf1) => (sent1, buf1)
      end
  end.

(** [uint16_t sendBinary(const uint8_t* data, uint16_t length)]. *)
Definition sendBinary (data : option (list byte)) (drv : t)
    (tr : list HwEvent) : Z * t * list HwEvent :=
  match data with
  | None => (0, drv, tr)
  | Some ds =>
      let '(sent, buf) := sendBinary_loop ds 0 (txBuffer drv) in
      let drv1 := set_txBuffer buf drv in
      if (0 <? sent) && negb (transmissionActive drv1)
      then let '(drv2, tr2) := startTransmission drv1 tr in (sent, drv2, tr2)
      else (sent, drv1, tr)
  end.

(** [void handleTxCompleteInterrupt()]. *)
Definition handleTxCompleteInterrupt (drv : t) (tr : list HwEvent)
    : t * list HwEvent :=
  match CircularBuffer.get BUFFER_SIZE (txBuffer drv) with
  | (Some data, buf) =>
      let drv1 := set_txBuffer buf drv in
      (drv1, transmitByte data drv1 tr)
  | (None, buf) =>
      (set_transmissionActive false (set_txBuffer buf drv), tr)
  end.

(** *** An interrupt taken inside a foreground call *)

(** [startTransmission] up to and including [txBuffer.get(data)]: the
    driver after it and the local [data], when a byte was pulled. *)
Definition startTransmission_pull (drv : t) : t * option byte :=
  if CircularBuffer.isEmpty (txBuffer drv) then (drv, None)
  else
    let drv1 := set_transmissionActive true drv in
    match CircularBuffer.get BUFFER_SIZE (txBuffer drv1) with
    | (Some data, buf) => (set_txBuffer buf drv1, Some data)
    | (None, buf) => (set_txBuffer buf drv1, None)
    end.

(** The rest of [startTransmission]: [transmitByte(data)] when a byte was
    pulled. *)
Definition startTransmission_push (data : option byte) (drv : t)
    (tr : list HwEvent) : list HwEvent :=
  match data with
  | Some d => transmitByte d drv tr
  | None => tr
  end.


(** *** Foreground and interrupt calls in one timeline *)

(** One call on the driver: a foreground enqueue or the interrupt-side
    drain. *)
Inductive call : Type :=
| SendByte (d : byte)
| SendData (ds : list byte)
| TxInterrupt.

(** Runs one call; the first component lists the bytes whose [put]
    returned [true] during it. *)
Definition exec (c : call) (drv : t) (tr : list HwEvent)
    : list byte * t * list HwEvent :=
  match c with
  | SendByte d =>
      let '(ok, drv1, tr1) := sendByte d drv tr in
      (if ok then [d] else [], drv1, tr1)
  | SendData ds =>
      let '(sent, drv1, tr1) := sendData (Some ds) drv tr in
      (take (Z.to_nat sent) ds, drv1, tr1)
  | TxInterrupt =>
      let '(drv1, tr1) := handleTxCompleteInterrupt drv tr in
      ([], drv1, tr1)
  end.

(** Runs the calls in the order given; collects every enqueued byte. *)
Fixpoint execs (cs : list call) (drv : t) (tr : list HwEvent)
    : list byte * t * list HwEvent :=
  match cs with
  | [] => ([], drv, tr)
  | c :: cs' =>
      let '(acc1, drv1, tr1) := exec c drv tr in
      let '(acc2, drv2, tr2) := execs cs' drv1 tr1 in
      (acc1 ++ acc2, drv2, tr2)
  end.

(** The buffer of the driver is well-formed. *)
Definition wf (drv : t) : Prop :=
  CircularBuffer.wf BUFFER_SIZE (txBuffer drv).

(** The bytes waiting in the queue, oldest first. *)
Definition queued (drv : t) : list byte :=
  CircularBuffer.contents BUFFER_SIZE (txBuffer drv).

(** Idle drivers have nothing queued: what the foreground relies on when
    it starts a transmission itself. *)
Definition idle_empty (drv : t) : Prop :=
  transmissionActive drv = false -> queued drv = [].

(** The characters before the first NUL of a C string. *)
Fixpoint c_string (s : list byte) : list byte :=
  match s with
  | [] => []
  | c :: s' => if byte_val c =? 0 then [] else c :: c_string s'
  end.

(** The characters [sendHex] offers to the queue, in order. *)
Definition hex_text (uppercase : bool) (ds : list byte) : list byte :=
  flat_map (fun d => [highNibbleChar uppercase d; lowNibbleChar uppercase d]) ds.

(** The characters the inner loop of [sendBinary] offers for one byte with
    [n] bits left. *)
Fixpoint bit_text (b : byte) (n : nat) : list byte :=
  match n with
  | O => []
  | S n' => bitChar b (Z.of_nat n') :: bit_text b n'
  end.

(** The characters [sendBinary] offers to the queue, in order. *)
Definition binary_text (ds : list byte) : list byte :=
  flat_map (fun d => bit_text d 8) ds.

End Methods.
End UsartDriver.

(** ** The interrupt dispatcher and the process-wide state *)

(** A driver object in memory, with the [BUFFER_SIZE] it was instantiated
    at. *)
Record Object : Type := mkObject {
  objSize : Z;
  objDriver : UsartDriver.t
}.

(** Driver objects by address, the global [g_lpuart1Instance], and the
    hardware trace. *)
Record World : Type := mkWorld {
  objects : gmap ptr Object;
  g_lpuart1Instance : option ptr;
  trace : list HwEvent
}.

(** The state at start-up: [static void* g_lpuart1Instance = nullptr]. *)
Definition boot : World :=
  {| objects := ∅; g_lpuart1Instance := None; trace := [] |}.

(** [void handleLpuart1Interrupt()].  The registered pointer is cast to
    [UsartDriver<256>*]; the call is undefined ([None]) when it does not
    point to a live driver of that instantiation. *)
Definition handleLpuart1Interrupt (w : World) : option World :=
  match g_lpuart1Instance w with
  | None => Some w
  | Some p =>
      match objects w !! p with
      | Some o =>
          if objSize o =? 256 then
            let '(drv1, tr1) :=
              UsartDriver.handleTxCompleteInterrupt 256 (objDriver o) (trace w) in
            Some {| objects := <[p := {| objSize := objSize o;
                                         objDriver := drv1 |}]> (objects w);
                    g_lpuart1Instance := g_lpuart1Instance w;
                    trace := tr1 |}
          else None
      | None => None
      end
  end.

(** [extern "C" void USART_HandleLpuart1Interrupt(void)]. *)
Definition USART_HandleLpuart1Interrupt (w : World) : option World :=
  handleLpuart1Interrupt w.

(** [initialize] called on the object at address [this]. *)
Definition World_initialize (this : ptr) (cfg : Config) (w : World)
    : option (bool * World) :=
  match objects w !! this with
  | Some o =>
      let '(r, drv1, g1, tr1) :=
        UsartDriver.initialize this cfg (objDriver o)
          (g_lpuart1Instance w) (trace w) in
      Some (r, {| objects := <[this := {| objSize := objSize o;
                                          objDriver := drv1 |}]> (objects w);
                  g_lpuart1Instance := g1;
                  trace := tr1 |})
  | None => None
  end.


(** * Properties *)

(** ** Index arithmetic *)

Section IndexArithmetic.
Variable SIZE : Z.
Hypothesis Hpow : pow2_capacity SIZE.

Lemma capacity_range : 1 <= SIZE <= 32768.
Proof.
  destruct Hpow as (k & Hk & ->). split.
  - pose proof (Z.pow_pos_nonneg 2 k). lia.
  - change 32768 with (2 ^ 15). apply Z.pow_le_mono_r; lia.
Qed.

Lemma MASK_eq : CircularBuffer.MASK SIZE = SIZE - 1.
Proof.
  unfold CircularBuffer.MASK, u16. pose proof capacity_range.
  apply Z.mod_small. lia.
Qed.

Lemma land_MASK (x : Z) : Z.land x (CircularBuffer.MASK SIZE) = x mod SIZE.
Proof.
  rewrite MASK_eq. destruct Hpow as (k & Hk & ->).
  replace (2 ^ k - 1) with (Z.ones k) by (rewrite Z.ones_equiv; lia).
  apply Z.land_ones. lia.
Qed.

Lemma mask_mod (x : Z) : u16 (Z.land x (CircularBuffer.MASK SIZE)) = x mod SIZE.
Proof.
  rewrite land_MASK. unfold u16. pose proof capacity_range.
  pose proof (Z.mod_pos_bound x SIZE). apply Z.mod_small. lia.
Qed.

Lemma succ_mod (a : Z) :
  0 <= a < SIZE -> (a + 1) mod SIZE = if a + 1 <? SIZE then a + 1 else 0.
Proof.
  intros Ha. destruct (Z.ltb_spec (a + 1) SIZE).
  - apply Z.mod_small. lia.
  - replace (a + 1) with SIZE by lia. apply Z.mod_same. lia.
Qed.

Lemma dist_mod (a b : Z) :
  0 <= a < SIZE -> 0 <= b < SIZE ->
  (a - b) mod SIZE = if b <=? a then a - b else a - b + SIZE.
Proof.
  intros Ha Hb. destruct (Z.leb_spec b a).
  - apply Z.mod_small. lia.
  - symmetry. apply (Z.mod_unique _ _ (-1)); lia.
Qed.

Lemma dist_succ (h i : Z) :
  0 <= h < SIZE -> 0 <= i < SIZE -> h <> i ->
  (h - (i + 1) mod SIZE) mod SIZE = (h - i) mod SIZE - 1.
Proof.
  intros Hh Hi Hne. pose proof (Z.mod_pos_bound (i + 1) SIZE).
  rewrite (dist_mod h i), dist_mod by lia. rewrite succ_mod by lia.
  repeat case_match; lia.
Qed.

Lemma succ_dist (h t : Z) :
  0 <= h < SIZE -> 0 <= t < SIZE -> (h + 1) mod SIZE <> t ->
  ((h + 1) mod SIZE - t) mod SIZE = (h - t) mod SIZE + 1.
Proof.
  intros Hh Ht Hne. pose proof (Z.mod_pos_bound (h + 1) SIZE).
  rewrite (dist_mod h t), dist_mod by lia. rewrite succ_mod in * by lia.
  repeat case_match; lia.
Qed.

Lemma full_dist (h t : Z) :
  0 <= h < SIZE -> 0 <= t < SIZE ->
  (h + 1) mod SIZE = t <-> (h - t) mod SIZE = SIZE - 1.
Proof.
  intros Hh Ht. rewrite dist_mod, succ_mod by lia.
  repeat case_match; lia.
Qed.

Lemma space_plus_dist (h t : Z) :
  (t - h - 1) mod SIZE + (h - t) mod SIZE = SIZE - 1.
Proof.
  pose proof capacity_range.
  pose proof (Z.mod_pos_bound (h - t) SIZE).
  replace (t - h - 1) with (SIZE - 1 - (h - t) mod SIZE + (-1 - (h - t) / SIZE) * SIZE).
  - rewrite Z.mod_add by lia. rewrite Z.mod_small by lia. lia.
  - pose proof (Z.div_mod (h - t) SIZE). lia.
Qed.

End IndexArithmetic.

(** ** The ring buffer as a queue *)

Section RingFacts.
Variable SIZE : Z.
Hypothesis Hpow : pow2_capacity SIZE.

Import CircularBuffer.

Lemma walk_length (b : t) (n : nat) (i : Z) : length (walk SIZE b n i) = n.
Proof. revert i. induction n as [|n IH]; intros i; simpl; [|rewrite IH]; done. Qed.

Lemma walk_ext (b b' : t) (n : nat) (i : Z) :
  buffer b = buffer b' -> walk SIZE b n i = walk SIZE b' n i.
Proof.
  intros E. revert i. induction n as [|n IH]; intros i; simpl; [done|].
  rewrite IH. unfold read. by rewrite E.
Qed.

Lemma contents_length (b : t) :
  Z.of_nat (length (contents SIZE b)) = (head b - tail b) mod SIZE.
Proof.
  unfold contents. rewrite walk_length.
  pose proof (capacity_range SIZE Hpow).
  pose proof (Z.mod_pos_bound (head b - tail b) SIZE). lia.
Qed.

Lemma contents_bound (b : t) :
  Z.of_nat (length (contents SIZE b)) <= SIZE - 1.
Proof.
  rewrite contents_length. pose proof (capacity_range SIZE Hpow).
  pose proof (Z.mod_pos_bound (head b - tail b) SIZE). lia.
Qed.

Lemma size_contents (b : t) : size SIZE b = Z.of_nat (length (contents SIZE b)).
Proof. unfold size. by rewrite mask_mod, contents_length. Qed.

Lemma availableSpace_contents (b : t) :
  availableSpace SIZE b = SIZE - 1 - Z.of_nat (length (contents SIZE b)).
Proof.
  unfold availableSpace. rewrite mask_mod by done. rewrite contents_length.
  pose proof (space_plus_dist SIZE Hpow (head b) (tail b)). lia.
Qed.

Lemma isEmpty_contents (b : t) : wf SIZE b -> isEmpty b = true <-> contents SIZE b = [].
Proof.
  intros (_ & Hh & Ht). unfold isEmpty. rewrite Z.eqb_eq. split.
  - intros E. unfold contents. by rewrite E, Z.sub_diag, Z.mod_0_l by lia.
  - intros E. pose proof (contents_length b) as L. rewrite E in L. simpl in L.
    rewrite dist_mod in L by done. case_match; lia.
Qed.

Lemma isFull_contents (b : t) :
  wf SIZE b -> isFull SIZE b = true <-> Z.of_nat (length (contents SIZE b)) = SIZE - 1.
Proof.
  intros (_ & Hh & Ht). unfold isFull. rewrite Z.eqb_eq, land_MASK by done.
  rewrite contents_length. by apply full_dist.
Qed.

Lemma create_wf (mem : list byte) :
  length mem = Z.to_nat SIZE -> wf SIZE (create mem).
Proof.
  pose proof (capacity_range SIZE Hpow). intros L. repeat split; simpl; (done || lia).
Qed.

Lemma create_contents (mem : list byte) : contents SIZE (create mem) = [].
Proof.
  unfold contents, create. simpl. done.
Qed.

Lemma clear_wf (b : t) : wf SIZE b -> wf SIZE (clear b).
Proof.
  pose proof (capacity_range SIZE Hpow).
  intros (L & _ & _). repeat split; simpl; (done || lia).
Qed.

Lemma clear_contents (b : t) : contents SIZE (clear b) = [].
Proof.
  unfold contents, clear. simpl. done.
Qed.

(** Writing the cell at [h] appends to a walk that ends just before [h]. *)
Lemma walk_write (b b' : t) (d : byte) (h : Z) (n : nat) (i : Z) :
  length (buffer b) = Z.to_nat SIZE ->
  buffer b' = <[Z.to_nat h := d]> (buffer b) ->
  0 <= h < SIZE -> 0 <= i < SIZE ->
  (h - i) mod SIZE = Z.of_nat n ->
  walk SIZE b' (S n) i = walk SIZE b n i ++ [d].
Proof.
  intros L E Hh. revert i. induction n as [|n IH]; intros i Hi D.
  - assert (h = i) as <-.
    { rewrite dist_mod in D by done. case_match; lia. }
    simpl. unfold read. rewrite E, list_lookup_insert_eq by lia. done.
  - assert (h <> i) as Hne.
    { intros ->. rewrite Z.sub_diag, Z.mod_0_l in D by lia. lia. }
    change (walk SIZE b' (S (S n)) i)
      with (read b' i :: walk SIZE b' (S n) (u16 (Z.land (i + 1) (MASK SIZE)))).
    change (walk SIZE b (S n) i)
      with (read b i :: walk SIZE b n (u16 (Z.land (i + 1) (MASK SIZE)))).
    rewrite mask_mod by done. rewrite IH.
    + simpl. f_equal. unfold read. rewrite E, list_lookup_insert_ne by lia. done.
    + apply Z.mod_pos_bound. lia.
    + rewrite dist_succ by done. lia.
Qed.

(** [put] on a buffer with room appends the byte. *)
Lemma put_room (d : byte) (b : t) :
  wf SIZE b -> Z.of_nat (length (contents SIZE b)) < SIZE - 1 ->
  exists b', put SIZE d b = (true, b') /\ wf SIZE b' /\
             contents SIZE b' = contents SIZE b ++ [d] /\
             tail b' = tail b.
Proof.
  intros (L & Hh & Ht) Hlen. unfold put. rewrite mask_mod by done.
  assert ((head b + 1) mod SIZE <> tail b) as Hne.
  { rewrite full_dist by done. rewrite <- contents_length. lia. }
  apply Z.eqb_neq in Hne as Hne'. rewrite Hne'. eexists. split; [done|].
  pose proof (Z.mod_pos_bound (head b + 1) SIZE).
  split; [|split; [|done]].
  - repeat split; simpl; try lia. by rewrite length_insert.
  - unfold contents at 1. simpl. rewrite succ_dist by done.
    replace (Z.to_nat ((head b - tail b) mod SIZE + 1))
      with (S (Z.to_nat ((head b - tail b) mod SIZE))).
    + apply (walk_write b _ d (head b)); try done.
      pose proof (Z.mod_pos_bound (head b - tail b) SIZE). lia.
    + pose proof (Z.mod_pos_bound (head b - tail b) SIZE). lia.
Qed.

(** [put] on a buffer holding [SIZE - 1] bytes is refused and changes
    nothing. *)
Lemma put_full (d : byte) (b : t) :
  wf SIZE b -> Z.of_nat (length (contents SIZE b)) = SIZE - 1 ->
  put SIZE d b = (false, b).
Proof.
  intros (L & Hh & Ht) Hlen. unfold put. rewrite mask_mod by done.
  assert ((head b + 1) mod SIZE = tail b) as E.
  { rewrite full_dist by done. by rewrite <- contents_length. }
  apply Z.eqb_eq in E. by rewrite E.
Qed.

Lemma get_empty (b : t) :
  wf SIZE b -> contents SIZE b = [] -> get SIZE b = (None, b).
Proof.
  intros W E. apply isEmpty_contents in E; [|done].
  unfold get. unfold isEmpty in E. by rewrite E.
Qed.

(** [get] on a non-empty buffer removes the oldest byte. *)
Lemma get_cons (b : t) (x : byte) (q : list byte) :
  wf SIZE b -> contents SIZE b = x :: q ->
  exists b', get SIZE b = (Some x, b') /\ wf SIZE b' /\ contents SIZE b' = q /\
             head b' = head b /\ buffer b' = buffer b.
Proof.
  intros (L & Hh & Ht) E.
  assert (head b <> tail b) as Hne.
  { intros Eq. pose proof (contents_length b) as C. rewrite E in C.
    rewrite Eq, Z.sub_diag, Z.mod_0_l in C by lia. simpl in C. lia. }
  unfold get. apply Z.eqb_neq in Hne as Hne'. rewrite Hne'.
  rewrite mask_mod by done.
  pose proof (Z.mod_pos_bound (tail b + 1) SIZE).
  pose proof (contents_length b) as C. rewrite E in C. simpl length in C.
  unfold contents in E.
  replace (Z.to_nat ((head b - tail b) mod SIZE)) with (S (length q)) in E by lia.
  simpl in E. injection E as E1 E2. rewrite mask_mod in E2 by done.
  eexists. split; [by rewrite E1|]. split; [|split; [|done]].
  - repeat split; simpl; (done || lia).
  - unfold contents. simpl. rewrite dist_succ by done.
    replace (Z.to_nat ((head b - tail b) mod SIZE - 1)) with (length q) by lia.
    etrans; [|exact E2]. by apply walk_ext.
Qed.

Lemma put_wf (d : byte) (b : t) : wf SIZE b -> wf SIZE (snd (put SIZE d b)).
Proof.
  intros W. pose proof (contents_bound b).
  destruct (Z.eq_dec (Z.of_nat (length (contents SIZE b))) (SIZE - 1)) as [E|E].
  - by rewrite put_full.
  - destruct (put_room d b W) as (b' & -> & W' & _); [lia|done].
Qed.

Lemma get_wf (b : t) : wf SIZE b -> wf SIZE (snd (get SIZE b)).
Proof.
  intros W. destruct (contents SIZE b) as [|x q] eqn:E.
  - by rewrite get_empty.
  - by destruct (get_cons b x q W E) as (b' & -> & W' & _).
Qed.

Lemma step_wf (o : op) (b : t) : wf SIZE b -> wf SIZE (step SIZE o b).
Proof.
  destruct o; simpl; [apply put_wf | apply get_wf | apply clear_wf].
Qed.

Lemma run_wf (os : list op) (b : t) : wf SIZE b -> wf SIZE (run SIZE os b).
Proof.
  revert b. induction os as [|o os IH]; intros b W; simpl; [done|].
  apply IH. by apply step_wf.
Qed.

(** A run of [put] calls that all fit: every one succeeds and the bytes
    are appended in order. *)
Lemma put_all_room (ds : list byte) (b : t) :
  wf SIZE b ->
  Z.of_nat (length (contents SIZE b)) + Z.of_nat (length ds) <= SIZE - 1 ->
  exists b', put_all SIZE ds b = (map (fun _ => true) ds, b') /\ wf SIZE b' /\
             contents SIZE b' = contents SIZE b ++ ds /\ tail b' = tail b.
Proof.
  revert b. induction ds as [|d ds IH]; intros b W Hlen.
  - exists b. simpl. by rewrite app_nil_r.
  - simpl length in Hlen.
    destruct (put_room d b W) as (b1 & E1 & W1 & C1 & T1); [lia|].
    destruct (IH b1 W1) as (b2 & E2 & W2 & C2 & T2).
    { rewrite C1, length_app. simpl. lia. }
    exists b2. simpl. rewrite E1, E2. split; [done|]. split; [done|].
    split; [|congruence]. by rewrite C2, C1, <- app_assoc.
Qed.

End RingFacts.

(** ** Capacity, the space/size complement, [clear] *)

Section RingClaims.
Import CircularBuffer.

Lemma pow2_capacity_8 : pow2_capacity 8.
Proof. exists 3. split; [lia | reflexivity]. Defined.

Lemma pow2_capacity_256 : pow2_capacity 256.
Proof. exists 8. split; [lia | reflexivity]. Defined.

(** Every power-of-two capacity passes the [static_assert] of the class. *)
Lemma pow2_passes_static_assert (SIZE : Z) :
  pow2_capacity SIZE -> static_assert_pow2 SIZE = true.
Proof.
  intros (k & Hk & ->). unfold static_assert_pow2. apply Z.eqb_eq.
  replace (2 ^ k - 1) with (Z.ones k) by (rewrite Z.ones_equiv; lia).
  rewrite Z.land_ones by lia. apply Z.mod_same.
  pose proof (Z.pow_pos_nonneg 2 k). lia.
Qed.

(** The capacities the source instantiates pass its [static_assert]. *)
Lemma instantiated_sizes_pass :
  forallb static_assert_pow2 [64; 128; 256; 512; 1024] = true.
Proof. reflexivity. Qed.

(** C4.  For a power-of-two capacity [SIZE]: starting from an empty buffer,
    any [SIZE - 1] or fewer consecutive [put] calls all return [true] and
    store their bytes in order; a [put] on a buffer holding [SIZE - 1] bytes
    returns [false] and leaves array, [head] and [tail] as they were. *)
Theorem put_capacity (SIZE : Z) :
  pow2_capacity SIZE ->
  (forall (b : t) (ds : list byte),
      wf SIZE b -> isEmpty b = true ->
      Z.of_nat (length ds) <= SIZE - 1 ->
      exists b', put_all SIZE ds b = (map (fun _ => true) ds, b') /\
                 contents SIZE b' = ds /\
                 size SIZE b' = Z.of_nat (length ds)) /\
  (forall (b : t) (d : byte),
      wf SIZE b -> size SIZE b = SIZE - 1 ->
      put SIZE d b = (false, b)).
Proof.
  intros Hpow. split.
  - intros b ds W E Hlen.
    apply (isEmpty_contents SIZE Hpow b W) in E.
    destruct (put_all_room SIZE Hpow ds b W) as (b' & P & W' & C & _).
    { rewrite E. simpl. lia. }
    exists b'. rewrite E in C. simpl in C. split; [done|]. split; [done|].
    by rewrite size_contents, C.
  - intros b d W S. apply put_full; [done..|]. by rewrite <- size_contents.
Qed.

Lemma put_capacity_witness :
  (exists b', put_all 8 [x01; x02; x03; x04; x05; x06; x07]
                (create (repeat x00 8))
              = ([true; true; true; true; true; true; true], b') /\
              contents 8 b' = [x01; x02; x03; x04; x05; x06; x07] /\
              size 8 b' = 7) /\
  put 8 x08 {| buffer := [x01; x02; x03; x04; x05; x06; x07; x00];
               head := 7; tail := 0 |}
  = (false, {| buffer := [x01; x02; x03; x04; x05; x06; x07; x00];
               head := 7; tail := 0 |}).
Proof.
  destruct (put_capacity 8 pow2_capacity_8) as [H1 H2]. split.
  - apply (H1 (create (repeat x00 8)) [x01; x02; x03; x04; x05; x06; x07]).
    + repeat split; simpl; lia.
    + reflexivity.
    + simpl. lia.
  - apply H2.
    + repeat split; simpl; lia.
    + reflexivity.
Defined.

(** For every pair of index values, reachable or not. *)
Lemma space_size_any (SIZE : Z) (b : t) :
  pow2_capacity SIZE -> availableSpace SIZE b + size SIZE b = SIZE - 1.
Proof.
  intros Hpow. rewrite availableSpace_contents, size_contents by done. lia.
Qed.

(** C5.  For a power-of-two capacity [SIZE] and every buffer reached from a
    fresh one by [put], [get] and [clear] calls,
    [availableSpace() + size() = SIZE - 1]; the same holds for
    [getAvailableSpace() + getQueueSize()] of a driver after any sequence
    of foreground and interrupt calls. *)
Theorem space_size_complement (SIZE : Z) :
  pow2_capacity SIZE ->
  (forall (mem : list byte) (os : list op),
      let b := run SIZE os (create mem) in
      availableSpace SIZE b + size SIZE b = SIZE - 1) /\
  (forall (p : PeripheralType) (cfg0 : Config) (mem : list byte)
          (cs : list UsartDriver.call),
      let drv := snd (fst (UsartDriver.execs SIZE cs
                            (UsartDriver.new p cfg0 mem) [])) in
      UsartDriver.getAvailableSpace SIZE drv
      + UsartDriver.getQueueSize SIZE drv = SIZE - 1).
Proof.
  intros Hpow. split.
  - intros mem os b. by apply space_size_any.
  - intros p cfg0 mem cs drv.
    unfold UsartDriver.getAvailableSpace, UsartDriver.getQueueSize.
    by apply space_size_any.
Qed.

Lemma space_size_complement_witness :
  availableSpace 8 (run 8 [Put x01; Put x02; Get; Clear; Put x03]
                      (create (repeat x00 8)))
  + size 8 (run 8 [Put x01; Put x02; Get; Clear; Put x03]
              (create (repeat x00 8))) = 8 - 1.
Proof.
  apply (proj1 (space_size_complement 8 pow2_capacity_8)
           (repeat x00 8) [Put x01; Put x02; Get; Clear; Put x03]).
Defined.

End RingClaims.

Section RingScenarios.
Import CircularBuffer.

(** C7, as stated, fails on the code: with capacity 8 the seventh [put] of
    [1..7] is not refused. *)
Lemma scenario_A_seventh_put_accepted :
  ~ (exists b,
        put_all 8 [x01; x02; x03; x04; x05; x06; x07] (create (repeat x00 8))
        = ([true; true; true; true; true; true; false], b) /\
        size 8 b = 7).
Proof.
  intros (b & E & _). vm_compute in E. discriminate E.
Qed.

(** C7, amended.  With capacity 8 (7 usable cells), putting
    [1,2,3,4,5,6,7] one at a time into a fresh buffer succeeds seven times;
    the buffer then holds those 7 bytes, [size() = 7],
    [availableSpace() = 0] and [isFull()]; an eighth [put] returns [false]
    and leaves the buffer as it was, so [size()] is still 7. *)
Theorem scenario_A (mem : list byte) :
  length mem = 8%nat ->
  exists b,
    put_all 8 [x01; x02; x03; x04; x05; x06; x07] (create mem)
    = ([true; true; true; true; true; true; true], b) /\
    contents 8 b = [x01; x02; x03; x04; x05; x06; x07] /\
    size 8 b = 7 /\ availableSpace 8 b = 0 /\ isFull 8 b = true /\
    forall d, put 8 d b = (false, b) /\ size 8 (snd (put 8 d b)) = 7.
Proof.
  intros L.
  destruct (put_all_room 8 pow2_capacity_8
              [x01; x02; x03; x04; x05; x06; x07] (create mem))
    as (b & P & W & C & _).
  - by apply create_wf; [apply pow2_capacity_8|].
  - rewrite create_contents. simpl. lia.
  - rewrite create_contents in C. simpl in C. exists b.
    assert (Z.of_nat (length (contents 8 b)) = 8 - 1) as Len by (by rewrite C).
    assert (size 8 b = 7) as S.
    { rewrite size_contents by apply pow2_capacity_8. by rewrite C. }
    assert (forall d, put 8 d b = (false, b)) as F.
    { intros d. by apply put_full; [apply pow2_capacity_8|..]. }
    split; [done|]. split; [done|]. split; [done|]. split; [|split].
    + rewrite availableSpace_contents by apply pow2_capacity_8. by rewrite C.
    + by apply isFull_contents; [apply pow2_capacity_8|..].
    + intros d. by rewrite F.
Qed.

Lemma scenario_A_witness :
  exists b,
    put_all 8 [x01; x02; x03; x04; x05; x06; x07] (create (repeat x00 8))
    = ([true; true; true; true; true; true; true], b) /\
    contents 8 b = [x01; x02; x03; x04; x05; x06; x07] /\
    size 8 b = 7 /\ availableSpace 8 b = 0 /\ isFull 8 b = true /\
    forall d, put 8 d b = (false, b) /\ size 8 (snd (put 8 d b)) = 7.
Proof. apply (scenario_A (repeat x00 8)). reflexivity. Defined.

(** The same through the driver: seven [sendByte] calls on a fresh
    [UsartDriver<8>] are all accepted; the first byte goes straight to
    [transmitByte], so six are queued afterwards. *)
Lemma scenario_A_sendByte :
  UsartDriver.execs 8
    (map UsartDriver.SendByte [x01; x02; x03; x04; x05; x06; x07])
    (UsartDriver.new LPUART_1 getDefaultLpuartConfig (repeat x00 8)) []
  = ([x01; x02; x03; x04; x05; x06; x07],
     {| UsartDriver.peripheralType := LPUART_1;
        UsartDriver.usartInstance := Some LPUART1;
        UsartDriver.config := getDefaultLpuartConfig;
        UsartDriver.txBuffer :=
          {| buffer := [x01; x02; x03; x04; x05; x06; x07; x00];
             head := 7; tail := 1 |};
        UsartDriver.transmissionActive := true |},
     [TransmitByte LPUART_1 x01; LL_LPUART_TransmitData8 x01]).
Proof. reflexivity. Qed.

(** C9, as stated, fails on the code: after one [put] and one [get] the
    buffer is empty with both indices at 1, and [clear] moves them to 0. *)
Lemma clear_empty_moves_indices :
  isEmpty (run 8 [Put x01; Get] (create (repeat x00 8))) = true /\
  clear (run 8 [Put x01; Get] (create (repeat x00 8)))
  <> run 8 [Put x01; Get] (create (repeat x00 8)).
Proof.
  split; [reflexivity|]. vm_compute. discriminate.
Qed.

(** C9, amended.  On a buffer that is already empty, [clear()] leaves it
    empty and leaves the array, [size()], [availableSpace()] and the stored
    contents as they were; it sets both indices to 0, so the buffer state
    is unchanged exactly when the indices were already 0; and [clear()] is
    idempotent. *)
Theorem clear_on_empty (SIZE : Z) (b : t) :
  pow2_capacity SIZE -> isEmpty b = true ->
  isEmpty (clear b) = true /\
  buffer (clear b) = buffer b /\
  size SIZE (clear b) = size SIZE b /\
  availableSpace SIZE (clear b) = availableSpace SIZE b /\
  contents SIZE (clear b) = contents SIZE b /\
  head (clear b) = 0 /\ tail (clear b) = 0 /\
  (clear b = b <-> head b = 0) /\
  clear (clear b) = clear b.
Proof.
  intros Hpow E. unfold isEmpty in E. apply Z.eqb_eq in E.
  assert (contents SIZE b = []) as C.
  { unfold contents. by rewrite E, Z.sub_diag. }
  assert (size SIZE b = 0) as S by (by rewrite size_contents, C).
  assert (availableSpace SIZE b = SIZE - 1) as A.
  { rewrite availableSpace_contents, C by done. simpl. lia. }
  split; [done|]. split; [done|]. split.
  { rewrite S, size_contents, clear_contents; done. }
  split.
  { rewrite A, availableSpace_contents, clear_contents by done. simpl. lia. }
  split; [by rewrite clear_contents|]. split; [done|]. split; [done|].
  split; [|done]. split.
  - intros Eq. by rewrite <- Eq.
  - intros H0. destruct b as [buf h t0]. simpl in *. subst. reflexivity.
Qed.

Lemma clear_on_empty_witness :
  isEmpty (clear (create (repeat x00 8))) = true /\
  buffer (clear (create (repeat x00 8))) = buffer (create (repeat x00 8)) /\
  size 8 (clear (create (repeat x00 8))) = size 8 (create (repeat x00 8)) /\
  availableSpace 8 (clear (create (repeat x00 8)))
  = availableSpace 8 (create (repeat x00 8)) /\
  contents 8 (clear (create (repeat x00 8)))
  = contents 8 (create (repeat x00 8)) /\
  head (clear (create (repeat x00 8))) = 0 /\
  tail (clear (create (repeat x00 8))) = 0 /\
  (clear (create (repeat x00 8)) = create (repeat x00 8)
   <-> head (create (repeat x00 8)) = 0) /\
  clear (clear (create (repeat x00 8))) = clear (create (repeat x00 8)).
Proof.
  apply (clear_on_empty 8 (create (repeat x00 8)) pow2_capacity_8).
  reflexivity.
Defined.

End RingScenarios.

(** ** The driver: what each call does to the queue and to the hardware *)

Lemma handed_app (p : PeripheralType) (tr1 tr2 : list HwEvent) :
  handed p (tr1 ++ tr2) = handed p tr1 ++ handed p tr2.
Proof. apply omap_app. Qed.

Lemma handed_transmitByte (d : byte) (drv : UsartDriver.t) (tr : list HwEvent) :
  handed (UsartDriver.peripheralType drv) (UsartDriver.transmitByte d drv tr)
  = handed (UsartDriver.peripheralType drv) tr ++ [d].
Proof.
  unfold UsartDriver.transmitByte.
  destruct (UsartDriver.peripheralType drv); rewrite ?handed_app; simpl;
    rewrite ?app_nil_r; reflexivity.
Qed.

(** On the LPUART every byte handed to [transmitByte] is written to the
    data register; on the USARTs none is (the case is empty in the
    source). *)
Lemma lpuart_tdr_transmitByte (d : byte) (drv : UsartDriver.t) (tr : list HwEvent) :
  lpuart_tdr (UsartDriver.transmitByte d drv tr)
  = lpuart_tdr tr ++
    match UsartDriver.peripheralType drv with LPUART_1 => [d] | _ => [] end.
Proof.
  unfold UsartDriver.transmitByte, lpuart_tdr.
  destruct (UsartDriver.peripheralType drv); rewrite ?omap_app; simpl;
    rewrite ?app_nil_r; reflexivity.
Qed.

Section DriverFacts.
Variable SIZE : Z.
Hypothesis Hpow : pow2_capacity SIZE.

Import UsartDriver.

Lemma set_txBuffer_same (drv : t) : set_txBuffer (txBuffer drv) drv = drv.
Proof. by destruct drv. Qed.

Lemma new_wf (p : PeripheralType) (cfg0 : Config) (mem : list byte) :
  length mem = Z.to_nat SIZE -> wf SIZE (new p cfg0 mem).
Proof. intros L. by apply create_wf. Qed.

Lemma new_queued (p : PeripheralType) (cfg0 : Config) (mem : list byte) :
  queued SIZE (new p cfg0 mem) = [].
Proof. apply create_contents. Qed.

Lemma handle_nil (drv : t) (tr : list HwEvent) :
  wf SIZE drv -> queued SIZE drv = [] ->
  handleTxCompleteInterrupt SIZE drv tr = (set_transmissionActive false drv, tr).
Proof.
  intros W Q. unfold handleTxCompleteInterrupt.
  rewrite (get_empty SIZE Hpow _ W Q). by rewrite set_txBuffer_same.
Qed.

Lemma handle_cons (drv : t) (tr : list HwEvent) (x : byte) (q : list byte) :
  wf SIZE drv -> queued SIZE drv = x :: q ->
  exists drv', handleTxCompleteInterrupt SIZE drv tr
               = (drv', transmitByte x drv' tr) /\
               wf SIZE drv' /\ queued SIZE drv' = q /\
               transmissionActive drv' = transmissionActive drv /\
               peripheralType drv' = peripheralType drv.
Proof.
  intros W Q. unfold handleTxCompleteInterrupt.
  destruct (get_cons SIZE Hpow _ x q W Q) as (b' & -> & W' & Q' & _).
  eexists. split; [reflexivity|]. done.
Qed.

Lemma start_nil (drv : t) (tr : list HwEvent) :
  wf SIZE drv -> queued SIZE drv = [] ->
  startTransmission SIZE drv tr = (drv, tr).
Proof.
  intros W Q. unfold startTransmission.
  apply (isEmpty_contents SIZE Hpow _ W) in Q. by rewrite Q.
Qed.

Lemma start_cons (drv : t) (tr : list HwEvent) (x : byte) (q : list byte) :
  wf SIZE drv -> queued SIZE drv = x :: q ->
  exists drv', startTransmission SIZE drv tr = (drv', transmitByte x drv' tr) /\
               wf SIZE drv' /\ queued SIZE drv' = q /\
               transmissionActive drv' = true /\
               peripheralType drv' = peripheralType drv.
Proof.
  intros W Q. unfold startTransmission.
  destruct (CircularBuffer.isEmpty (txBuffer drv)) eqn:E.
  { apply (isEmpty_contents SIZE Hpow _ W) in E. unfold queued in Q. congruence. }
  simpl. destruct (get_cons SIZE Hpow _ x q W Q) as (b' & -> & W' & Q' & _).
  eexists. split; [reflexivity|]. done.
Qed.

Lemma sendByte_full (d : byte) (drv : t) (tr : list HwEvent) :
  wf SIZE drv -> Z.of_nat (length (queued SIZE drv)) = SIZE - 1 ->
  sendByte SIZE d drv tr = (false, drv, tr).
Proof.
  intros W F. unfold sendByte. rewrite (put_full SIZE Hpow d _ W F).
  simpl. by rewrite set_txBuffer_same.
Qed.

Lemma sendByte_active (d : byte) (drv : t) (tr : list HwEvent) :
  wf SIZE drv -> Z.of_nat (length (queued SIZE drv)) < SIZE - 1 ->
  transmissionActive drv = true ->
  exists drv', sendByte SIZE d drv tr = (true, drv', tr) /\
               wf SIZE drv' /\ queued SIZE drv' = queued SIZE drv ++ [d] /\
               transmissionActive drv' = true /\
               peripheralType drv' = peripheralType drv.
Proof.
  intros W R A. unfold sendByte.
  destruct (put_room SIZE Hpow d _ W R) as (b' & -> & W' & C & _).
  simpl. rewrite A. simpl. eexists. split; [reflexivity|]. done.
Qed.

Lemma sendByte_idle (d : byte) (drv : t) (tr : list HwEvent) (x : byte)
    (q : list byte) :
  wf SIZE drv -> Z.of_nat (length (queued SIZE drv)) < SIZE - 1 ->
  transmissionActive drv = false ->
  queued SIZE drv ++ [d] = x :: q ->
  exists drv', sendByte SIZE d drv tr = (true, drv', transmitByte x drv' tr) /\
               wf SIZE drv' /\ queued SIZE drv' = q /\
               transmissionActive drv' = true /\
               peripheralType drv' = peripheralType drv.
Proof.
  intros W R A Q. unfold sendByte.
  destruct (put_room SIZE Hpow d _ W R) as (b' & -> & W' & C & _).
  simpl. rewrite A. simpl.
  destruct (start_cons (set_txBuffer b' drv) tr x q) as (drv' & -> & ?).
  - exact W'.
  - unfold queued. simpl. by rewrite C.
  - exists drv'. done.
Qed.

(** The loop of [sendData] appends a prefix of the request and counts it. *)
Lemma sendData_loop_spec (ds : list byte) (sent : Z) (buf : CircularBuffer.t) :
  CircularBuffer.wf SIZE buf ->
  0 <= sent <= Z.of_nat (length (CircularBuffer.contents SIZE buf)) ->
  exists (k : nat) buf',
    sendData_loop SIZE ds sent buf = (sent + Z.of_nat k, buf') /\
    CircularBuffer.wf SIZE buf' /\
    CircularBuffer.contents SIZE buf'
    = CircularBuffer.contents SIZE buf ++ take k ds /\
    (k <= length ds)%nat /\
    Z.of_nat k
    = Z.min (Z.of_nat (length ds))
        (SIZE - 1 - Z.of_nat (length (CircularBuffer.contents SIZE buf))).
Proof.
  revert sent buf. induction ds as [|d ds IH]; intros sent buf W Hs.
  - exists 0%nat, buf. simpl. rewrite app_nil_r, Z.add_0_r.
    pose proof (contents_bound SIZE Hpow buf). split_and!; (done || lia).
  - pose proof (contents_bound SIZE Hpow buf) as B.
    pose proof (capacity_range SIZE Hpow) as R.
    destruct (Z.eq_dec (Z.of_nat (length (CircularBuffer.contents SIZE buf)))
                (SIZE - 1)) as [F|F].
    + exists 0%nat, buf. simpl. rewrite (put_full SIZE Hpow d buf W F).
      rewrite app_nil_r, Z.add_0_r. split_and!; (done || lia).
    + destruct (put_room SIZE Hpow d buf W) as (b1 & P & W1 & C1 & _); [lia|].
      destruct (IH (u16 (sent + 1)) b1 W1) as (k & b2 & E & W2 & C2 & K & M).
      { unfold u16. rewrite Z.mod_small by lia.
        rewrite C1, length_app. simpl. lia. }
      exists (S k), b2. simpl. rewrite P, E.
      unfold u16. rewrite Z.mod_small by lia.
      split; [f_equal; lia|]. split; [done|]. split.
      { by rewrite C2, C1, <- app_assoc. }
      split; [lia|]. rewrite C1, length_app in M. simpl in M. lia.
Qed.

End DriverFacts.

(** ** Calls in any order: the invariant behind FIFO delivery *)

Section Interleavings.
Variable SIZE : Z.
Hypothesis Hpow : pow2_capacity SIZE.

Import UsartDriver.

(** Every call keeps the buffer well-formed and idle drivers empty, and
    moves bytes only from the accepted ones into the queue and from the
    queue, oldest first, to the transmit primitive. *)
Lemma exec_inv (c : call) (drv : t) (tr : list HwEvent) :
  wf SIZE drv -> idle_empty SIZE drv ->
  forall acc drv' tr', exec SIZE c drv tr = (acc, drv', tr') ->
  wf SIZE drv' /\ idle_empty SIZE drv' /\
  peripheralType drv' = peripheralType drv /\
  handed (peripheralType drv) tr' ++ queued SIZE drv'
  = handed (peripheralType drv) tr ++ queued SIZE drv ++ acc.
Proof.
  intros W I acc drv' tr' E. pose proof (contents_bound SIZE Hpow (txBuffer drv)) as B.
  destruct c as [d|ds|]; simpl in E.
  - (* sendByte *)
    destruct (Z.eq_dec (Z.of_nat (length (queued SIZE drv))) (SIZE - 1)) as [F|F].
    { rewrite (sendByte_full SIZE Hpow d drv tr W F) in E.
      injection E as <- <- <-. by rewrite app_nil_r. }
    assert (Z.of_nat (length (queued SIZE drv)) < SIZE - 1) as R
      by (unfold queued in *; lia).
    destruct (transmissionActive drv) eqn:A.
    + destruct (sendByte_active SIZE Hpow d drv tr W R A)
        as (d1 & S & W1 & Q1 & A1 & P1).
      rewrite S in E. injection E as <- <- <-.
      split; [done|]. split; [intros ?; congruence|]. split; [done|].
      by rewrite Q1.
    + pose proof (I A) as Q0.
      destruct (sendByte_idle SIZE Hpow d drv tr d [] W R A)
        as (d1 & S & W1 & Q1 & A1 & P1); [by rewrite Q0|].
      rewrite S in E. injection E as <- <- <-.
      split; [done|]. split; [intros ?; congruence|]. split; [done|].
      rewrite <- P1, handed_transmitByte, Q1, Q0. by rewrite app_nil_r.
  - (* sendData *)
    destruct (sendData_loop_spec SIZE Hpow ds 0 (txBuffer drv) W)
      as (k & buf & L & W1 & C1 & K & _); [lia|].
    rewrite Z.add_0_l in L. rewrite L in E. simpl in E.
    destruct ((0 <? Z.of_nat k) && negb (transmissionActive drv)) eqn:G;
      rewrite ?Nat2Z.id in E.
    + apply andb_true_iff in G as [Gk Ga]. apply Z.ltb_lt in Gk.
      apply negb_true_iff in Ga. pose proof (I Ga) as Q0.
      unfold queued in Q0. rewrite Q0 in C1. simpl in C1.
      destruct (take k ds) as [|x q] eqn:T.
      { apply (f_equal length) in T. rewrite length_take in T. simpl in T. lia. }
      destruct (start_cons SIZE Hpow (set_txBuffer buf drv) tr x q W1 C1)
        as (d1 & S & W2 & Q2 & A2 & P2).
      rewrite S, Nat2Z.id in E. injection E as <- <- <-. simpl in P2.
      split; [done|]. split; [intros ?; congruence|]. split; [done|].
      rewrite <- P2, handed_transmitByte, Q2, T.
      unfold queued. rewrite Q0. simpl. by rewrite <- app_assoc.
    + injection E as <- <- <-. split; [done|]. split; [|split; [done|]].
      * intros A. simpl in A. rewrite A in G. simpl in G.
        rewrite andb_true_r in G. apply Z.ltb_ge in G.
        assert (k = 0%nat) as -> by lia.
        unfold queued. simpl. rewrite C1, take_0, app_nil_r. by apply I.
      * unfold queued. simpl. by rewrite C1.
  - (* handleTxCompleteInterrupt *)
    destruct (queued SIZE drv) as [|x q] eqn:Q.
    + rewrite (handle_nil SIZE Hpow drv tr W Q) in E. injection E as <- <- <-.
      split; [done|]. split; [by intros _|]. split; [done|].
      unfold queued in *. simpl. by rewrite Q.
    + destruct (handle_cons SIZE Hpow drv tr x q W Q)
        as (d1 & S & W1 & Q1 & A1 & P1).
      rewrite S in E. injection E as <- <- <-.
      split; [done|]. split; [|split; [done|]].
      * intros A. rewrite A1 in A. pose proof (I A). congruence.
      * rewrite <- P1, handed_transmitByte, Q1. rewrite app_nil_r.
        by rewrite <- app_assoc.
Qed.

Lemma execs_inv (cs : list call) (drv : t) (tr : list HwEvent) :
  wf SIZE drv -> idle_empty SIZE drv ->
  forall acc drv' tr', execs SIZE cs drv tr = (acc, drv', tr') ->
  wf SIZE drv' /\ idle_empty SIZE drv' /\
  peripheralType drv' = peripheralType drv /\
  handed (peripheralType drv) tr' ++ queued SIZE drv'
  = handed (peripheralType drv) tr ++ queued SIZE drv ++ acc.
Proof.
  revert drv tr. induction cs as [|c cs IH]; intros drv tr W I acc drv' tr' E.
  - simpl in E. injection E as <- <- <-. by rewrite app_nil_r.
  - simpl in E.
    destruct (exec SIZE c drv tr) as [[a1 d1] t1] eqn:E1.
    destruct (execs SIZE cs d1 t1) as [[a2 d2] t2] eqn:E2.
    injection E as <- <- <-.
    destruct (exec_inv c drv tr W I _ _ _ E1) as (W1 & I1 & P1 & H1).
    destruct (IH d1 t1 W1 I1 _ _ _ E2) as (W2 & I2 & P2 & H2).
    split; [done|]. split; [done|]. split; [congruence|].
    rewrite P1 in H2. rewrite H2.
    rewrite (app_assoc (handed (peripheralType drv) t1)), H1.
    by rewrite <- !app_assoc.
Qed.

(** Enough interrupts empty the queue, handing its bytes over in order. *)
Lemma drain (n : nat) (drv : t) (tr : list HwEvent) :
  wf SIZE drv -> (length (queued SIZE drv) <= n)%nat ->
  forall acc drv' tr',
    execs SIZE (repeat TxInterrupt n) drv tr = (acc, drv', tr') ->
    acc = [] /\ queued SIZE drv' = [] /\
    handed (peripheralType drv) tr'
    = handed (peripheralType drv) tr ++ queued SIZE drv /\
    (length (queued SIZE drv) < n -> transmissionActive drv' = false)%nat.
Proof.
  revert drv tr. induction n as [|n IH]; intros drv tr W L acc drv' tr' E.
  - simpl in E. injection E as <- <- <-.
    destruct (queued SIZE drv); simpl in L; [|lia].
    split; [done|]. split; [done|]. split; [by rewrite app_nil_r|]. simpl. lia.
  - simpl in E.
    destruct (handleTxCompleteInterrupt SIZE drv tr) as [d1 t1] eqn:E1.
    destruct (execs SIZE (repeat TxInterrupt n) d1 t1) as [[a2 d2] t2] eqn:E2.
    injection E as <- <- <-.
    destruct (queued SIZE drv) as [|x q] eqn:Q.
    + rewrite (handle_nil SIZE Hpow drv tr W Q) in E1. injection E1 as <- <-.
      assert (queued SIZE (set_transmissionActive false drv) = []) as Q1 by done.
      assert (length (queued SIZE (set_transmissionActive false drv)) <= n)%nat
        as L1 by (rewrite Q1; simpl; lia).
      destruct (IH (set_transmissionActive false drv) tr W L1 _ _ _ E2)
        as (-> & Q2 & H2 & A2).
      simpl in H2. split; [done|]. split; [done|]. split; [by rewrite H2, Q1|].
      intros _. destruct n as [|n].
      * simpl in E2. by injection E2 as <- <-.
      * apply A2. rewrite Q1. simpl. lia.
    + destruct (handle_cons SIZE Hpow drv tr x q W Q)
        as (d1' & S & W1 & Q1 & A1 & P1).
      rewrite S in E1. injection E1 as <- <-.
      assert (length (queued SIZE d1') <= n)%nat
        as L1 by (rewrite Q1; simpl in L; lia).
      destruct (IH d1' _ W1 L1 _ _ _ E2) as (-> & Q2 & H2 & A2).
      split; [done|]. split; [done|]. split.
      * rewrite P1 in H2. rewrite H2, <- P1, handed_transmitByte, Q1.
        by rewrite <- app_assoc.
      * intros Ln. apply A2. rewrite Q1. simpl in Ln. lia.
Qed.

End Interleavings.

(** ** Which side pulls from the queue *)

Section Ownership.
Variable SIZE : Z.
Hypothesis Hpow : pow2_capacity SIZE.

Import UsartDriver.

(** While the driver is active, [sendByte] only enqueues: the consumer
    index and the hardware trace are untouched. *)
Lemma sendByte_active_only_puts (d : byte) (drv : t) (tr : list HwEvent) :
  transmissionActive drv = true ->
  sendByte SIZE d drv tr
  = (fst (CircularBuffer.put SIZE d (txBuffer drv)),
     set_txBuffer (snd (CircularBuffer.put SIZE d (txBuffer drv))) drv, tr) /\
  CircularBuffer.tail (snd (CircularBuffer.put SIZE d (txBuffer drv)))
  = CircularBuffer.tail (txBuffer drv).
Proof.
  intros A. unfold sendByte.
  destruct (CircularBuffer.put SIZE d (txBuffer drv)) as [ok buf] eqn:P.
  simpl. rewrite A, andb_false_r. split; [done|].
  unfold CircularBuffer.put in P. by case_match; injection P as <- <-.
Qed.

(** In a state reached by whole calls, an interrupt on an idle driver finds
    the queue empty: it removes nothing and touches no hardware. *)
Lemma idle_interrupt_pulls_nothing (p : PeripheralType) (cfg0 : Config)
    (mem : list byte) (cs : list call) (acc : list byte) (drv : t)
    (tr : list HwEvent) :
  length mem = Z.to_nat SIZE ->
  execs SIZE cs (new p cfg0 mem) [] = (acc, drv, tr) ->
  transmissionActive drv = false ->
  handleTxCompleteInterrupt SIZE drv tr = (drv, tr).
Proof.
  intros L E A.
  destruct (execs_inv SIZE Hpow cs (new p cfg0 mem) []
              (new_wf SIZE Hpow p cfg0 mem L)
              (fun _ => new_queued SIZE p cfg0 mem) _ _ _ E) as (W & I & _).
  rewrite (handle_nil SIZE Hpow drv tr W (I A)). f_equal.
  destruct drv. simpl in A. by subst.
Qed.

End Ownership.

(** ** The transmission state machine *)

Section StateMachine.
Import UsartDriver.

(** The two parts of [startTransmission], run one after the other with
    nothing in between, are [startTransmission]. *)
Lemma startTransmission_split (SIZE : Z) (drv : t) (tr : list HwEvent) :
  startTransmission SIZE drv tr
  = (fst (startTransmission_pull SIZE drv),
     startTransmission_push (snd (startTransmission_pull SIZE drv))
       (fst (startTransmission_pull SIZE drv)) tr).
Proof.
  unfold startTransmission, startTransmission_pull.
  destruct (CircularBuffer.isEmpty (txBuffer drv)); [done|]. simpl.
  by destruct (CircularBuffer.get SIZE (txBuffer drv)) as [[d|] buf].
Qed.




(** C2.  The Idle-to-Active transition.  On an idle driver, whenever the
    [put] of [sendByte] succeeds, [sendByte] returns [true], removes the
    oldest queued byte, hands it to [transmitByte] and leaves the driver
    active; likewise [sendData] whenever it queued at least one byte.  With
    an empty buffer (capacity at least 2), [sendByte(0xAA)] returns [true],
    [isTransmissionActive()] is [true] on return, and the one byte handed
    to [transmitByte] during the call is [0xAA]. *)
Theorem idle_to_active (SIZE : Z) (drv : t) (tr : list HwEvent) :
  pow2_capacity SIZE -> wf SIZE drv -> transmissionActive drv = false ->
  (forall d, fst (CircularBuffer.put SIZE d (txBuffer drv)) = true ->
     exists x drv',
       sendByte SIZE d drv tr = (true, drv', transmitByte x drv' tr) /\
       queued SIZE drv ++ [d] = x :: queued SIZE drv' /\
       isTransmissionActive drv' = true /\
       handed (peripheralType drv) (transmitByte x drv' tr)
       = handed (peripheralType drv) tr ++ [x]) /\
  (forall ds sent drv' tr',
     sendData SIZE (Some ds) drv tr = (sent, drv', tr') -> 0 < sent ->
     exists x,
       tr' = transmitByte x drv' tr /\
       queued SIZE drv ++ take (Z.to_nat sent) ds = x :: queued SIZE drv' /\
       isTransmissionActive drv' = true /\
       handed (peripheralType drv) tr' = handed (peripheralType drv) tr ++ [x]) /\
  (2 <= SIZE -> CircularBuffer.isEmpty (txBuffer drv) = true ->
     exists drv',
       sendByte SIZE xaa drv tr = (true, drv', transmitByte xaa drv' tr) /\
       queued SIZE drv' = [] /\
       isTransmissionActive drv' = true /\
       handed (peripheralType drv) (transmitByte xaa drv' tr)
       = handed (peripheralType drv) tr ++ [xaa]).
Proof.
  intros Hpow W A.
  assert (forall d x q,
            Z.of_nat (length (queued SIZE drv)) < SIZE - 1 ->
            queued SIZE drv ++ [d] = x :: q ->
            exists drv',
              sendByte SIZE d drv tr = (true, drv', transmitByte x drv' tr) /\
              queued SIZE drv' = q /\ isTransmissionActive drv' = true /\
              handed (peripheralType drv) (transmitByte x drv' tr)
              = handed (peripheralType drv) tr ++ [x]) as Step.
  { intros d x q R Q.
    destruct (sendByte_idle SIZE Hpow d drv tr x q W R A Q)
      as (drv' & S & _ & Q' & A' & P').
    exists drv'. split; [done|]. split; [done|]. split; [done|].
    rewrite <- P'. apply handed_transmitByte. }
  split; [|split].
  - intros d Ok.
    assert (Z.of_nat (length (queued SIZE drv)) < SIZE - 1) as R.
    { pose proof (contents_bound SIZE Hpow (txBuffer drv)) as B.
      destruct (Z.eq_dec (Z.of_nat (length (queued SIZE drv))) (SIZE - 1)) as [F|F].
      - rewrite (put_full SIZE Hpow d _ W F) in Ok. discriminate Ok.
      - unfold queued in *. lia. }
    destruct (queued SIZE drv ++ [d]) as [|x q] eqn:Q.
    { by destruct (queued SIZE drv). }
    destruct (Step d x q R Q) as (drv' & S & Q' & A' & H').
    exists x, drv'. by rewrite Q'.
  - intros ds sent drv' tr' E Pos. unfold sendData in E.
    destruct (sendData_loop_spec SIZE Hpow ds 0 (txBuffer drv) W)
      as (k & buf & L & W1 & C1 & K & _); [lia|].
    rewrite Z.add_0_l in L. rewrite L in E. simpl in E. rewrite A in E.
    destruct (0 <? Z.of_nat k) eqn:G; simpl in E.
    2:{ injection E as <- _ _. apply Z.ltb_ge in G. lia. }
    destruct (CircularBuffer.contents SIZE buf) as [|x q] eqn:Q.
    { apply Z.ltb_lt in G. apply (f_equal length) in C1.
      rewrite length_app, length_take in C1. simpl in C1. lia. }
    destruct (start_cons SIZE Hpow (set_txBuffer buf drv) tr x q W1 Q)
      as (d1 & S & _ & Q1 & A1 & P1).
    rewrite S in E. injection E as <- <- <-. exists x. rewrite Nat2Z.id.
    split; [done|]. split; [by rewrite Q1|].
    split; [done|]. simpl in P1. rewrite <- P1. apply handed_transmitByte.
  - intros Two E. apply (isEmpty_contents SIZE Hpow _ W) in E.
    apply (Step xaa xaa []).
    + unfold queued. rewrite E. simpl. lia.
    + unfold queued. by rewrite E.
Qed.

Lemma idle_to_active_witness :
  (exists x drv',
     sendByte 256 x41 (new LPUART_1 getDefaultLpuartConfig (repeat x00 256)) []
     = (true, drv', transmitByte x drv' []) /\
     queued 256 (new LPUART_1 getDefaultLpuartConfig (repeat x00 256)) ++ [x41]
     = x :: queued 256 drv' /\
     isTransmissionActive drv' = true /\
     handed LPUART_1 (transmitByte x drv' []) = [] ++ [x]) /\
  (exists drv',
     sendByte 256 xaa (new LPUART_1 getDefaultLpuartConfig (repeat x00 256)) []
     = (true, drv', transmitByte xaa drv' []) /\
     queued 256 drv' = [] /\
     isTransmissionActive drv' = true /\
     handed LPUART_1 (transmitByte xaa drv' []) = [] ++ [xaa]).
Proof.
  assert (wf 256 (new LPUART_1 getDefaultLpuartConfig (repeat x00 256))) as W
    by (repeat split; simpl; lia).
  destruct (idle_to_active 256
              (new LPUART_1 getDefaultLpuartConfig (repeat x00 256)) []
              pow2_capacity_256 W eq_refl) as (H1 & _ & H3).
  split.
  - apply (H1 x41). reflexivity.
  - apply H3; [lia | reflexivity].
Defined.

End StateMachine.

Section InterruptSide.
Import UsartDriver.

(** C3.  The interrupt-side transition.  On an active driver,
    [handleTxCompleteInterrupt] with a non-empty queue removes the oldest
    byte, hands it to [transmitByte] and leaves the driver active; with an
    empty queue it sets the driver idle and touches no hardware.  Hence,
    after [sendByte] of 1, 2 and 3 on a fresh driver (capacity at least 4),
    which hands over 1 at once, three interrupts hand over 2, then 3, and
    then set the driver idle without calling [transmitByte]. *)
Theorem interrupt_drain (SIZE : Z) :
  pow2_capacity SIZE ->
  (forall drv tr x q,
      wf SIZE drv -> transmissionActive drv = true ->
      queued SIZE drv = x :: q ->
      exists drv',
        handleTxCompleteInterrupt SIZE drv tr = (drv', transmitByte x drv' tr) /\
        queued SIZE drv' = q /\ transmissionActive drv' = true /\
        handed (peripheralType drv) (transmitByte x drv' tr)
        = handed (peripheralType drv) tr ++ [x]) /\
  (forall drv tr,
      wf SIZE drv -> transmissionActive drv = true ->
      queued SIZE drv = [] ->
      exists drv',
        handleTxCompleteInterrupt SIZE drv tr = (drv', tr) /\
        queued SIZE drv' = [] /\ transmissionActive drv' = false) /\
  (forall p cfg0 mem,
      4 <= SIZE -> length mem = Z.to_nat SIZE ->
      exists d0 t0 d1 d2 d3,
        execs SIZE [SendByte x01; SendByte x02; SendByte x03]
          (new p cfg0 mem) [] = ([x01; x02; x03], d0, t0) /\
        handed p t0 = [x01] /\ queued SIZE d0 = [x02; x03] /\
        transmissionActive d0 = true /\
        handleTxCompleteInterrupt SIZE d0 t0 = (d1, transmitByte x02 d1 t0) /\
        transmissionActive d1 = true /\
        handleTxCompleteInterrupt SIZE d1 (transmitByte x02 d1 t0)
        = (d2, transmitByte x03 d2 (transmitByte x02 d1 t0)) /\
        transmissionActive d2 = true /\
        handed p (transmitByte x03 d2 (transmitByte x02 d1 t0))
        = [x01; x02; x03] /\
        handleTxCompleteInterrupt SIZE d2
          (transmitByte x03 d2 (transmitByte x02 d1 t0))
        = (d3, transmitByte x03 d2 (transmitByte x02 d1 t0)) /\
        transmissionActive d3 = false).
Proof.
  intros Hpow. split; [|split].
  - intros drv tr x q W A Q.
    destruct (handle_cons SIZE Hpow drv tr x q W Q) as (drv' & S & _ & Q' & A' & P').
    exists drv'. split; [done|]. split; [done|]. split; [congruence|].
    rewrite <- P'. apply handed_transmitByte.
  - intros drv tr W A Q. exists (set_transmissionActive false drv).
    by rewrite (handle_nil SIZE Hpow drv tr W Q).
  - intros p cfg0 mem Four L.
    pose proof (new_wf SIZE Hpow p cfg0 mem L) as W.
    pose proof (new_queued SIZE p cfg0 mem) as Q.
    destruct (sendByte_idle SIZE Hpow x01 _ [] x01 [] W) as (a & Sa & Wa & Qa & Aa & Pa);
      [rewrite Q; simpl; lia | done | by rewrite Q |].
    destruct (sendByte_active SIZE Hpow x02 a (transmitByte x01 a []) Wa)
      as (b & Sb & Wb & Qb & Ab & Pb); [rewrite Qa; simpl; lia | done |].
    destruct (sendByte_active SIZE Hpow x03 b (transmitByte x01 a []) Wb)
      as (c & Sc & Wc & Qc & Ac & Pc); [rewrite Qb, Qa; simpl; lia | done |].
    rewrite Qb, Qa in Qc. simpl in Qc, Pa.
    assert (peripheralType c = p) as Pc' by congruence.
    assert (handed p (transmitByte x01 a []) = [x01]) as H0.
    { rewrite <- Pa. by rewrite handed_transmitByte. }
    destruct (handle_cons SIZE Hpow c (transmitByte x01 a []) x02 [x03] Wc Qc)
      as (d1 & S1 & W1 & Q1 & A1 & P1).
    destruct (handle_cons SIZE Hpow d1 (transmitByte x02 d1 (transmitByte x01 a []))
                x03 [] W1 Q1) as (d2 & S2 & W2 & Q2 & A2 & P2).
    exists c, (transmitByte x01 a []), d1, d2, (set_transmissionActive false d2).
    split. { simpl. by rewrite Sa, Sb, Sc. }
    split; [done|]. split; [done|]. split; [done|]. split; [done|].
    split; [congruence|]. split; [done|]. split; [congruence|]. split.
    { assert (peripheralType d1 = p) as Pd1 by congruence.
      assert (peripheralType d2 = p) as Pd2 by congruence.
      rewrite <- Pd2 at 1. rewrite handed_transmitByte, Pd2.
      rewrite <- Pd1 at 1. rewrite handed_transmitByte, Pd1.
      by rewrite H0. }
    split; [|done]. by apply handle_nil.
Qed.

Lemma interrupt_drain_witness :
  (exists drv',
     handleTxCompleteInterrupt 256
       (set_transmissionActive true
          (new LPUART_1 getDefaultLpuartConfig (repeat x00 256))) []
     = (drv', []) /\
     queued 256 drv' = [] /\ transmissionActive drv' = false) /\
  (exists d0 t0 d1 d2 d3,
     execs 256 [SendByte x01; SendByte x02; SendByte x03]
       (new LPUART_1 getDefaultLpuartConfig (repeat x00 256)) []
     = ([x01; x02; x03], d0, t0) /\
     handed LPUART_1 t0 = [x01] /\ queued 256 d0 = [x02; x03] /\
     transmissionActive d0 = true /\
     handleTxCompleteInterrupt 256 d0 t0 = (d1, transmitByte x02 d1 t0) /\
     transmissionActive d1 = true /\
     handleTxCompleteInterrupt 256 d1 (transmitByte x02 d1 t0)
     = (d2, transmitByte x03 d2 (transmitByte x02 d1 t0)) /\
     transmissionActive d2 = true /\
     handed LPUART_1 (transmitByte x03 d2 (transmitByte x02 d1 t0))
     = [x01; x02; x03] /\
     handleTxCompleteInterrupt 256 d2
       (transmitByte x03 d2 (transmitByte x02 d1 t0))
     = (d3, transmitByte x03 d2 (transmitByte x02 d1 t0)) /\
     transmissionActive d3 = false).
Proof.
  destruct (interrupt_drain 256 pow2_capacity_256) as (_ & H2 & H3). split.
  - apply H2.
    + repeat split; simpl; lia.
    + reflexivity.
    + reflexivity.
  - apply (H3 LPUART_1 getDefaultLpuartConfig (repeat x00 256)).
    + lia.
    + reflexivity.
Defined.

(** C10.  [initialize] returns [true] whatever the peripheral type, the
    configuration and the state it is called in. *)
Theorem initialize_returns_true (this : ptr) (cfg : Config) (drv : t)
    (g : option ptr) (tr : list HwEvent) :
  fst (fst (fst (initialize this cfg drv g tr))) = true.
Proof.
  unfold initialize. simpl. by destruct (peripheralType drv).
Qed.

End InterruptSide.

(** [initialize] on a live object succeeds with [true]; on the LPUART it
    registers the object for the interrupt. *)
Lemma World_initialize_true (this : ptr) (cfg : Config) (w : World) (o : Object) :
  objects w !! this = Some o ->
  exists w', World_initialize this cfg w = Some (true, w') /\
             (UsartDriver.peripheralType (objDriver o) = LPUART_1 ->
              g_lpuart1Instance w' = Some this).
Proof.
  intros H. unfold World_initialize. rewrite H.
  unfold UsartDriver.initialize. simpl.
  destruct (UsartDriver.peripheralType (objDriver o)); simpl;
    eexists; (split; [reflexivity|]); done.
Qed.

(** C8.  With no instance registered ([g_lpuart1Instance] is null), the
    interrupt dispatch routine and its C entry point return at once: no
    driver operation runs, and drivers, buffers, registry and hardware
    trace are as before. *)
Theorem unregistered_dispatch_noop (w : World) :
  g_lpuart1Instance w = None ->
  handleLpuart1Interrupt w = Some w /\
  USART_HandleLpuart1Interrupt w = Some w.
Proof.
  intros H. unfold USART_HandleLpuart1Interrupt, handleLpuart1Interrupt.
  by rewrite H.
Qed.

Lemma unregistered_dispatch_noop_witness :
  handleLpuart1Interrupt
    {| objects := {[ 1%positive :=
                     {| objSize := 256;
                        objDriver := UsartDriver.new LPUART_1
                                       getDefaultLpuartConfig (repeat x00 256) |} ]};
       g_lpuart1Instance := None;
       trace := [] |}
  = Some {| objects := {[ 1%positive :=
                     {| objSize := 256;
                        objDriver := UsartDriver.new LPUART_1
                                       getDefaultLpuartConfig (repeat x00 256) |} ]};
       g_lpuart1Instance := None;
       trace := [] |} /\
  USART_HandleLpuart1Interrupt
    {| objects := {[ 1%positive :=
                     {| objSize := 256;
                        objDriver := UsartDriver.new LPUART_1
                                       getDefaultLpuartConfig (repeat x00 256) |} ]};
       g_lpuart1Instance := None;
       trace := [] |}
  = Some {| objects := {[ 1%positive :=
                     {| objSize := 256;
                        objDriver := UsartDriver.new LPUART_1
                                       getDefaultLpuartConfig (repeat x00 256) |} ]};
       g_lpuart1Instance := None;
       trace := [] |}.
Proof.
  apply unregistered_dispatch_noop. reflexivity.
Defined.

(** At start-up nothing is registered, so an early interrupt does nothing. *)
Lemma dispatch_at_boot : handleLpuart1Interrupt boot = Some boot.
Proof. reflexivity. Qed.

(** With a live [UsartDriver<256>] registered, the dispatcher runs its
    [handleTxCompleteInterrupt]. *)
Lemma registered_dispatch (w : World) (p : ptr) (o : Object) :
  g_lpuart1Instance w = Some p -> objects w !! p = Some o -> objSize o = 256 ->
  handleLpuart1Interrupt w
  = Some {| objects :=
              <[p := {| objSize := 256;
                        objDriver :=
                          fst (UsartDriver.handleTxCompleteInterrupt 256
                                 (objDriver o) (trace w)) |}]> (objects w);
            g_lpuart1Instance := Some p;
            trace := snd (UsartDriver.handleTxCompleteInterrupt 256
                            (objDriver o) (trace w)) |}.
Proof.
  intros G O S. unfold handleLpuart1Interrupt. rewrite G, O, S. simpl.
  by destruct (UsartDriver.handleTxCompleteInterrupt 256 (objDriver o) (trace w)).
Qed.

(** * Further properties of the ring buffer *)

Section RingMore.
Variable SIZE : Z.
Hypothesis Hpow : pow2_capacity SIZE.

Import CircularBuffer.

Lemma get_all_contents (q : list byte) (b : t) :
  wf SIZE b -> contents SIZE b = q ->
  exists b', get_all SIZE (length q) b = (map Some q, b') /\
             wf SIZE b' /\ contents SIZE b' = [] /\ buffer b' = buffer b.
Proof.
  revert b. induction q as [|x q IH]; intros b W Q.
  - exists b. done.
  - destruct (get_cons SIZE Hpow b x q W Q) as (b1 & G & W1 & Q1 & _ & B1).
    destruct (IH b1 W1 Q1) as (b2 & G2 & W2 & Q2 & B2).
    exists b2. simpl. rewrite G, G2. split; [done|]. split; [done|].
    split; [done|]. congruence.
Qed.

Lemma availableSpace_nonneg (b : t) : 0 <= availableSpace SIZE b.
Proof.
  rewrite availableSpace_contents by done.
  pose proof (contents_bound SIZE Hpow b). lia.
Qed.

(** What a run of [put] calls does when it may not fit. *)
Lemma put_all_general (ds : list byte) (b : t) :
  wf SIZE b ->
  exists b',
    put_all SIZE ds b
    = (replicate (Nat.min (Z.to_nat (availableSpace SIZE b)) (length ds)) true
       ++ replicate (length ds - Z.to_nat (availableSpace SIZE b)) false, b') /\
    wf SIZE b' /\
    contents SIZE b'
    = contents SIZE b ++ take (Z.to_nat (availableSpace SIZE b)) ds /\
    tail b' = tail b.
Proof.
  revert b. induction ds as [|d ds IH]; intros b W.
  - exists b. simpl. rewrite Nat.min_0_r, take_nil. simpl. rewrite app_nil_r. done.
  - pose proof (contents_bound SIZE Hpow b) as B.
    destruct (Z.eq_dec (Z.of_nat (length (contents SIZE b))) (SIZE - 1)) as [F|F].
    + destruct (IH b W) as (b' & P & W' & C & T).
      assert (Z.to_nat (availableSpace SIZE b) = 0%nat) as A0.
      { rewrite availableSpace_contents by done. lia. }
      rewrite A0 in *. exists b'. simpl.
      rewrite (put_full SIZE Hpow d b W F), P. simpl.
      rewrite Nat.sub_0_r. done.
    + destruct (put_room SIZE Hpow d b W) as (b1 & P1 & W1 & C1 & T1); [lia|].
      destruct (IH b1 W1) as (b' & P & W' & C & T).
      assert (Z.to_nat (availableSpace SIZE b)
              = S (Z.to_nat (availableSpace SIZE b1))) as A1.
      { rewrite !availableSpace_contents by done.
        rewrite C1, length_app. simpl. lia. }
      exists b'. simpl. rewrite P1, P, A1. simpl.
      split; [done|]. split; [done|]. split; [|congruence].
      by rewrite C, C1, <- app_assoc.
Qed.

End RingMore.

(** Closed goals about concrete buffers: evaluate and compare. *)
Ltac by_evaluation := repeat split; vm_compute; (reflexivity || discriminate).

Section RingExtras.
Import CircularBuffer.

(** X1.  Starting from a fresh buffer over an array of [SIZE] cells, any
    sequence of [put], [get] and [clear] calls keeps the array at [SIZE]
    cells and both indices inside it. *)
Theorem ring_indices_in_bounds (SIZE : Z) (mem : list byte) (os : list op) :
  pow2_capacity SIZE -> length mem = Z.to_nat SIZE ->
  length (buffer (run SIZE os (create mem))) = Z.to_nat SIZE /\
  0 <= head (run SIZE os (create mem)) < SIZE /\
  0 <= tail (run SIZE os (create mem)) < SIZE.
Proof.
  intros Hpow L. apply (run_wf SIZE Hpow). by apply create_wf.
Qed.

Lemma ring_indices_in_bounds_witness :
  length (buffer (run 8 [Put x01; Get; Put x02; Clear; Put x03]
                    (create (repeat x00 8)))) = Z.to_nat 8 /\
  0 <= head (run 8 [Put x01; Get; Put x02; Clear; Put x03]
               (create (repeat x00 8))) < 8 /\
  0 <= tail (run 8 [Put x01; Get; Put x02; Clear; Put x03]
               (create (repeat x00 8))) < 8.
Proof.
  apply (ring_indices_in_bounds 8 (repeat x00 8)
           [Put x01; Get; Put x02; Clear; Put x03] pow2_capacity_8).
  reflexivity.
Defined.

(** X2.  Round trip: whatever fits is read back unchanged.  From an empty
    buffer, [put] of at most [SIZE - 1] bytes followed by as many [get]
    calls returns exactly those bytes in order, leaves the buffer empty,
    and one more [get] fails without changing it. *)
Theorem put_get_round_trip (SIZE : Z) (b : t) (ds : list byte) :
  pow2_capacity SIZE -> wf SIZE b -> isEmpty b = true ->
  Z.of_nat (length ds) <= SIZE - 1 ->
  exists b1 b2,
    put_all SIZE ds b = (map (fun _ => true) ds, b1) /\
    get_all SIZE (length ds) b1 = (map Some ds, b2) /\
    isEmpty b2 = true /\ get SIZE b2 = (None, b2).
Proof.
  intros Hpow W E Len.
  apply (isEmpty_contents SIZE Hpow b W) in E.
  destruct (put_all_room SIZE Hpow ds b W) as (b1 & P & W1 & C1 & _).
  { rewrite E. simpl. lia. }
  rewrite E in C1. simpl in C1.
  destruct (get_all_contents SIZE Hpow ds b1 W1 C1) as (b2 & G & W2 & C2 & _).
  exists b1, b2. split; [done|]. split; [done|]. split.
  - by apply (isEmpty_contents SIZE Hpow b2 W2).
  - by apply get_empty.
Qed.

Lemma put_get_round_trip_witness :
  exists b1 b2,
    put_all 8 [x68; x65; x6c; x6c; x6f] (create (repeat x00 8))
    = ([true; true; true; true; true], b1) /\
    get_all 8 5 b1 = ([Some x68; Some x65; Some x6c; Some x6c; Some x6f], b2) /\
    isEmpty b2 = true /\ get 8 b2 = (None, b2).
Proof.
  apply (put_get_round_trip 8 (create (repeat x00 8))
           [x68; x65; x6c; x6c; x6f] pow2_capacity_8).
  - repeat split; simpl; lia.
  - reflexivity.
  - simpl. lia.
Defined.

(** X3.  Overflow never overwrites.  A run of [put] calls on a
    well-formed buffer accepts exactly as many bytes as [availableSpace()]
    reported and refuses every later one; the bytes stored before stay in
    front, followed by the accepted prefix of the new ones. *)
Theorem put_overflow_keeps_old_data (SIZE : Z) (b : t) (ds : list byte) :
  pow2_capacity SIZE -> wf SIZE b ->
  exists b',
    put_all SIZE ds b
    = (replicate (Nat.min (Z.to_nat (availableSpace SIZE b)) (length ds)) true
       ++ replicate (length ds - Z.to_nat (availableSpace SIZE b)) false, b') /\
    contents SIZE b'
    = contents SIZE b ++ take (Z.to_nat (availableSpace SIZE b)) ds /\
    tail b' = tail b.
Proof.
  intros Hpow W.
  destruct (put_all_general SIZE Hpow ds b W) as (b' & P & _ & C & T).
  by exists b'.
Qed.

Lemma put_overflow_keeps_old_data_witness :
  exists b',
    put_all 4 [x01; x02; x03; x04; x05] (create (repeat x00 4))
    = (replicate (Nat.min (Z.to_nat (availableSpace 4 (create (repeat x00 4))))
                    (length [x01; x02; x03; x04; x05])) true
       ++ replicate (length [x01; x02; x03; x04; x05]
                     - Z.to_nat (availableSpace 4 (create (repeat x00 4)))) false,
       b') /\
    contents 4 b'
    = contents 4 (create (repeat x00 4))
      ++ take (Z.to_nat (availableSpace 4 (create (repeat x00 4))))
           [x01; x02; x03; x04; x05] /\
    tail b' = tail (create (repeat x00 4)).
Proof.
  apply (put_overflow_keeps_old_data 4 (create (repeat x00 4))
           [x01; x02; x03; x04; x05]).
  - exists 2. split; [lia | reflexivity].
  - repeat split; simpl; lia.
Defined.

(** X4.  The observers agree.  On a well-formed buffer [isEmpty()] holds
    exactly when [size()] is 0, [isFull()] exactly when [availableSpace()]
    is 0, that is when [size()] is [SIZE - 1]; with a capacity of at least
    2 a buffer is never both empty and full. *)
Theorem observers_agree (SIZE : Z) (b : t) :
  pow2_capacity SIZE -> wf SIZE b ->
  (isEmpty b = true <-> size SIZE b = 0) /\
  (isFull SIZE b = true <-> availableSpace SIZE b = 0) /\
  (isFull SIZE b = true <-> size SIZE b = SIZE - 1) /\
  (2 <= SIZE -> isEmpty b = true -> isFull SIZE b = false).
Proof.
  intros Hpow W.
  pose proof (isEmpty_contents SIZE Hpow b W) as E.
  pose proof (isFull_contents SIZE Hpow b W) as F.
  pose proof (size_contents SIZE Hpow b) as S.
  pose proof (availableSpace_contents SIZE Hpow b) as A.
  split; [|split; [|split]].
  - rewrite E, S. destruct (contents SIZE b); simpl; split; (done || lia).
  - rewrite F, A. lia.
  - rewrite F, S. done.
  - intros Two Em. apply E in Em. destruct (isFull SIZE b) eqn:Fu; [|done].
    pose proof (proj1 F eq_refl) as Fu'. rewrite Em in Fu'. simpl in Fu'. lia.
Qed.

Lemma observers_agree_witness :
  (isEmpty (create (repeat x00 8)) = true <-> size 8 (create (repeat x00 8)) = 0) /\
  (isFull 8 (create (repeat x00 8)) = true
   <-> availableSpace 8 (create (repeat x00 8)) = 0) /\
  (isFull 8 (create (repeat x00 8)) = true
   <-> size 8 (create (repeat x00 8)) = 8 - 1) /\
  (2 <= 8 -> isEmpty (create (repeat x00 8)) = true ->
   isFull 8 (create (repeat x00 8)) = false).
Proof.
  apply (observers_agree 8 (create (repeat x00 8)) pow2_capacity_8).
  repeat split; simpl; lia.
Defined.

(** X5.  [put] succeeds exactly when the buffer is not full.  On success
    the byte becomes the newest element, [size()] grows by one,
    [availableSpace()] shrinks by one and [tail] is untouched; on failure
    the buffer is returned as it was. *)
Theorem put_accounting (SIZE : Z) (b : t) (d : byte) :
  pow2_capacity SIZE -> wf SIZE b ->
  fst (put SIZE d b) = negb (isFull SIZE b) /\
  (isFull SIZE b = true -> snd (put SIZE d b) = b) /\
  (isFull SIZE b = false ->
   contents SIZE (snd (put SIZE d b)) = contents SIZE b ++ [d] /\
   size SIZE (snd (put SIZE d b)) = size SIZE b + 1 /\
   availableSpace SIZE (snd (put SIZE d b)) = availableSpace SIZE b - 1 /\
   tail (snd (put SIZE d b)) = tail b).
Proof.
  intros Hpow W. pose proof (contents_bound SIZE Hpow b) as B.
  pose proof (isFull_contents SIZE Hpow b W) as F.
  destruct (isFull SIZE b) eqn:Fu.
  - rewrite (put_full SIZE Hpow d b W (proj1 F eq_refl)). done.
  - assert (Z.of_nat (length (contents SIZE b)) < SIZE - 1) as R.
    { destruct (Z.eq_dec (Z.of_nat (length (contents SIZE b))) (SIZE - 1)) as [E|E];
        [apply F in E; discriminate | lia]. }
    destruct (put_room SIZE Hpow d b W R) as (b' & P & W' & C & T).
    rewrite P. simpl. split; [done|]. split; [done|]. intros _.
    split; [done|]. rewrite !size_contents, !availableSpace_contents by done.
    rewrite C, length_app. simpl. split; [lia|]. split; [lia|done].
Qed.

Lemma put_accounting_witness :
  fst (put 8 x2a (create (repeat x00 8)))
  = negb (isFull 8 (create (repeat x00 8))) /\
  (isFull 8 (create (repeat x00 8)) = true ->
   snd (put 8 x2a (create (repeat x00 8))) = create (repeat x00 8)) /\
  (isFull 8 (create (repeat x00 8)) = false ->
   contents 8 (snd (put 8 x2a (create (repeat x00 8))))
   = contents 8 (create (repeat x00 8)) ++ [x2a] /\
   size 8 (snd (put 8 x2a (create (repeat x00 8))))
   = size 8 (create (repeat x00 8)) + 1 /\
   availableSpace 8 (snd (put 8 x2a (create (repeat x00 8))))
   = availableSpace 8 (create (repeat x00 8)) - 1 /\
   tail (snd (put 8 x2a (create (repeat x00 8))))
   = tail (create (repeat x00 8))).
Proof.
  apply (put_accounting 8 (create (repeat x00 8)) x2a pow2_capacity_8).
  repeat split; simpl; lia.
Defined.

(** X6.  [get] fails exactly when the buffer is empty, and then returns
    the buffer as it was.  Otherwise it returns the oldest byte, the other
    bytes stay queued in order, [size()] shrinks by one, and [head] and
    the array are untouched. *)
Theorem get_accounting (SIZE : Z) (b : t) :
  pow2_capacity SIZE -> wf SIZE b ->
  (fst (get SIZE b) = None <-> isEmpty b = true) /\
  (isEmpty b = true -> snd (get SIZE b) = b) /\
  (isEmpty b = false ->
   contents SIZE b = option_list (fst (get SIZE b))
                     ++ contents SIZE (snd (get SIZE b)) /\
   size SIZE (snd (get SIZE b)) = size SIZE b - 1 /\
   availableSpace SIZE (snd (get SIZE b)) = availableSpace SIZE b + 1 /\
   head (snd (get SIZE b)) = head b /\
   buffer (snd (get SIZE b)) = buffer b).
Proof.
  intros Hpow W. pose proof (isEmpty_contents SIZE Hpow b W) as E.
  destruct (contents SIZE b) as [|x q] eqn:Q.
  - rewrite (get_empty SIZE Hpow b W Q). simpl.
    rewrite (proj2 E eq_refl). done.
  - destruct (get_cons SIZE Hpow b x q W Q) as (b' & G & W' & Q' & H' & B').
    rewrite G. simpl.
    assert (isEmpty b = false) as Ne.
    { destruct (isEmpty b); [|done]. by pose proof (proj1 E eq_refl). }
    rewrite Ne. split; [done|]. split; [done|]. intros _.
    split; [by rewrite Q'|].
    rewrite !size_contents, !availableSpace_contents by done.
    rewrite Q, Q'. simpl length. split; [lia|]. split; [lia|done].
Qed.

Lemma get_accounting_witness :
  (fst (get 8 (snd (put 8 x2a (create (repeat x00 8))))) = None
   <-> isEmpty (snd (put 8 x2a (create (repeat x00 8)))) = true) /\
  (isEmpty (snd (put 8 x2a (create (repeat x00 8)))) = true ->
   snd (get 8 (snd (put 8 x2a (create (repeat x00 8)))))
   = snd (put 8 x2a (create (repeat x00 8)))) /\
  (isEmpty (snd (put 8 x2a (create (repeat x00 8)))) = false ->
   contents 8 (snd (put 8 x2a (create (repeat x00 8))))
   = option_list (fst (get 8 (snd (put 8 x2a (create (repeat x00 8))))))
     ++ contents 8 (snd (get 8 (snd (put 8 x2a (create (repeat x00 8)))))) /\
   size 8 (snd (get 8 (snd (put 8 x2a (create (repeat x00 8))))))
   = size 8 (snd (put 8 x2a (create (repeat x00 8)))) - 1 /\
   availableSpace 8 (snd (get 8 (snd (put 8 x2a (create (repeat x00 8))))))
   = availableSpace 8 (snd (put 8 x2a (create (repeat x00 8)))) + 1 /\
   head (snd (get 8 (snd (put 8 x2a (create (repeat x00 8))))))
   = head (snd (put 8 x2a (create (repeat x00 8)))) /\
   buffer (snd (get 8 (snd (put 8 x2a (create (repeat x00 8))))))
   = buffer (snd (put 8 x2a (create (repeat x00 8))))).
Proof.
  apply (get_accounting 8 (snd (put 8 x2a (create (repeat x00 8))))
           pow2_capacity_8).
  by_evaluation.
Defined.

(** X7.  [clear()] discards everything queued and gives the whole capacity
    back: whatever the buffer held, after [clear()] a [get] fails,
    [availableSpace()] is [SIZE - 1], and any [SIZE - 1] or fewer bytes can
    be put and are then the contents. *)
Theorem clear_discards (SIZE : Z) (b : t) :
  pow2_capacity SIZE -> wf SIZE b ->
  get SIZE (clear b) = (None, clear b) /\
  availableSpace SIZE (clear b) = SIZE - 1 /\
  forall ds, Z.of_nat (length ds) <= SIZE - 1 ->
    exists b', put_all SIZE ds (clear b) = (map (fun _ => true) ds, b') /\
               contents SIZE b' = ds.
Proof.
  intros Hpow W. pose proof (clear_wf SIZE Hpow b W) as Wc.
  pose proof (clear_contents SIZE b) as Cc.
  split; [by apply get_empty|]. split.
  - rewrite availableSpace_contents, Cc by done. simpl. lia.
  - intros ds Len.
    destruct (put_all_room SIZE Hpow ds (clear b) Wc) as (b' & P & _ & C & _).
    { rewrite Cc. simpl. lia. }
    exists b'. rewrite Cc in C. done.
Qed.

Lemma clear_discards_witness :
  get 8 (clear (snd (put 8 x2a (create (repeat x00 8)))))
  = (None, clear (snd (put 8 x2a (create (repeat x00 8))))) /\
  availableSpace 8 (clear (snd (put 8 x2a (create (repeat x00 8))))) = 8 - 1 /\
  forall ds, Z.of_nat (length ds) <= 8 - 1 ->
    exists b', put_all 8 ds (clear (snd (put 8 x2a (create (repeat x00 8)))))
               = (map (fun _ => true) ds, b') /\
               contents 8 b' = ds.
Proof.
  apply (clear_discards 8 (snd (put 8 x2a (create (repeat x00 8))))
           pow2_capacity_8).
  by_evaluation.
Defined.

End RingExtras.

(** * Further properties of the driver *)

Section DriverMore.
Variable SIZE : Z.
Hypothesis Hpow : pow2_capacity SIZE.

Import UsartDriver.

Lemma put_refused_same (d : byte) (buf buf' : CircularBuffer.t) :
  CircularBuffer.put SIZE d buf = (false, buf') -> buf' = buf.
Proof.
  unfold CircularBuffer.put. case_match; intros E; [|discriminate E].
  by injection E as <-.
Qed.

(** A loop that counted nothing left the buffer as it was. *)
Lemma sendData_loop_unchanged (ds : list byte) (sent : Z)
    (buf : CircularBuffer.t) :
  CircularBuffer.wf SIZE buf ->
  0 <= sent <= Z.of_nat (length (CircularBuffer.contents SIZE buf)) ->
  fst (sendData_loop SIZE ds sent buf) = sent ->
  snd (sendData_loop SIZE ds sent buf) = buf.
Proof.
  intros W Hs E. destruct ds as [|d ds]; [done|]. simpl in *.
  destruct (CircularBuffer.put SIZE d buf) as [[|] b1] eqn:P.
  - pose proof (contents_bound SIZE Hpow buf) as B.
    pose proof (capacity_range SIZE Hpow) as R.
    destruct (Z.eq_dec (Z.of_nat (length (CircularBuffer.contents SIZE buf)))
                (SIZE - 1)) as [F|F].
    { rewrite (put_full SIZE Hpow d buf W F) in P. discriminate P. }
    destruct (put_room SIZE Hpow d buf W) as (b1' & P' & W1 & C1 & _); [lia|].
    rewrite P in P'. injection P' as ->.
    destruct (sendData_loop_spec SIZE Hpow ds (u16 (sent + 1)) b1' W1)
      as (k & b2 & L & _).
    { unfold u16. rewrite Z.mod_small by lia. rewrite C1, length_app. simpl. lia. }
    rewrite L in E. simpl in E. unfold u16 in E.
    rewrite Z.mod_small in E by lia. lia.
  - simpl. by apply put_refused_same in P.
Qed.

(** What [sendData] does, in terms of the queue and the hardware. *)
Lemma sendData_outcome (ds : list byte) (drv : t) (tr : list HwEvent) :
  wf SIZE drv ->
  exists (k : nat) drv' tr',
    sendData SIZE (Some ds) drv tr = (Z.of_nat k, drv', tr') /\
    Z.of_nat k = Z.min (Z.of_nat (length ds))
                   (SIZE - 1 - Z.of_nat (length (queued SIZE drv))) /\
    wf SIZE drv' /\ peripheralType drv' = peripheralType drv /\
    handed (peripheralType drv) tr' ++ queued SIZE drv'
    = handed (peripheralType drv) tr ++ queued SIZE drv ++ take k ds /\
    (transmissionActive drv = true ->
     tr' = tr /\ transmissionActive drv' = true /\
     queued SIZE drv' = queued SIZE drv ++ take k ds) /\
    (k = 0%nat -> drv' = drv /\ tr' = tr) /\
    ((0 < k)%nat -> transmissionActive drv' = true).
Proof.
  intros W. unfold sendData.
  destruct (sendData_loop_spec SIZE Hpow ds 0 (txBuffer drv) W)
    as (k & buf & L & W1 & C1 & K & M); [lia|].
  rewrite Z.add_0_l in L. rewrite Z.sub_0_r in M || idtac.
  pose proof (sendData_loop_unchanged ds 0 (txBuffer drv) W ltac:(lia)) as U.
  rewrite L in *. simpl in U.
  destruct ((0 <? Z.of_nat k) && negb (transmissionActive drv)) eqn:G; simpl.
  - rewrite G. apply andb_true_iff in G as [Gk Ga]. apply Z.ltb_lt in Gk.
    apply negb_true_iff in Ga.
    destruct (CircularBuffer.contents SIZE buf) as [|x q] eqn:Q.
    { apply (f_equal length) in C1. rewrite length_app, length_take in C1.
      simpl in C1. lia. }
    destruct (start_cons SIZE Hpow (set_txBuffer buf drv) tr x q W1 Q)
      as (d1 & S & W2 & Q2 & A2 & P2).
    rewrite S. simpl in P2. exists k, d1, (transmitByte x d1 tr).
    split; [done|]. split; [done|]. split; [done|]. split; [done|]. split.
    { rewrite <- P2, handed_transmitByte, Q2. unfold queued.
      rewrite <- C1. by rewrite <- app_assoc. }
    split; [congruence|]. split; [lia|done].
  - rewrite G. exists k, (set_txBuffer buf drv), tr.
    split; [done|]. split; [done|]. split; [done|]. split; [done|]. split.
    { unfold queued. simpl. by rewrite C1. }
    split; [|split].
    + intros A. split; [done|]. split; [done|]. unfold queued. simpl. done.
    + intros ->. rewrite U by done. by rewrite set_txBuffer_same.
    + intros Pos. destruct (transmissionActive drv) eqn:A; [done|].
      simpl in G. rewrite andb_true_r in G. apply Z.ltb_ge in G. lia.
Qed.

Lemma sendString_loop_eq (s : list byte) (sent : Z) (buf : CircularBuffer.t) :
  sendString_loop SIZE s sent buf = sendData_loop SIZE (c_string s) sent buf.
Proof.
  revert sent buf. induction s as [|c s IH]; intros sent buf; simpl; [done|].
  destruct (byte_val c =? 0); [done|]. simpl.
  destruct (CircularBuffer.put SIZE c buf) as [[|] b1]; [apply IH | done].
Qed.

Lemma sendHex_loop_eq (up : bool) (ds : list byte) (sent : Z)
    (buf : CircularBuffer.t) :
  sendHex_loop SIZE up ds sent buf = sendData_loop SIZE (hex_text up ds) sent buf.
Proof.
  revert sent buf. induction ds as [|d ds IH]; intros sent buf; simpl; [done|].
  destruct (CircularBuffer.put SIZE (highNibbleChar up d) buf) as [[|] b1]; [|done].
  destruct (CircularBuffer.put SIZE (lowNibbleChar up d) b1) as [[|] b2]; [|done].
  apply IH.
Qed.

Lemma sendBinary_bits_eq (b : byte) (n : nat) (rest : list byte) (sent : Z)
    (buf : CircularBuffer.t) :
  sendData_loop SIZE (bit_text b n ++ rest) sent buf
  = match sendBinary_bits SIZE b n sent buf with
    | (true, sent1, buf1) => sendData_loop SIZE rest sent1 buf1
    | (false, sent1, buf1) => (sent1, buf1)
    end.
Proof.
  revert sent buf. induction n as [|n IH]; intros sent buf; [done|].
  change (bit_text b (S n) ++ rest)
    with (bitChar b (Z.of_nat n) :: (bit_text b n ++ rest)).
  change (sendBinary_bits SIZE b (S n) sent buf)
    with (match CircularBuffer.put SIZE (bitChar b (Z.of_nat n)) buf with
          | (false, buf1) => (false, sent, buf1)
          | (true, buf1) => sendBinary_bits SIZE b n (u16 (sent + 1)) buf1
          end).
  simpl sendData_loop.
  destruct (CircularBuffer.put SIZE (bitChar b (Z.of_nat n)) buf) as [[|] b1];
    [apply IH | done].
Qed.

Lemma sendBinary_loop_eq (ds : list byte) (sent : Z) (buf : CircularBuffer.t) :
  sendBinary_loop SIZE ds sent buf = sendData_loop SIZE (binary_text ds) sent buf.
Proof.
  revert sent buf. induction ds as [|d ds IH]; intros sent buf; [done|].
  change (binary_text (d :: ds)) with (bit_text d 8 ++ binary_text ds).
  rewrite sendBinary_bits_eq.
  change (sendBinary_loop SIZE (d :: ds) sent buf)
    with (match sendBinary_bits SIZE d 8 sent buf with
          | (true, sent1, buf1) => sendBinary_loop SIZE ds sent1 buf1
          | (false, sent1, buf1) => (sent1, buf1)
          end).
  destruct (sendBinary_bits SIZE d 8 sent buf) as [[[|] s1] b1]; [apply IH | done].
Qed.

Lemma startTransmission_trace (drv : t) (tr : list HwEvent) :
  peripheralType (fst (startTransmission SIZE drv tr)) = peripheralType drv /\
  (snd (startTransmission SIZE drv tr) = tr \/
   exists x, snd (startTransmission SIZE drv tr)
             = transmitByte x (fst (startTransmission SIZE drv tr)) tr).
Proof.
  unfold startTransmission. destruct (CircularBuffer.isEmpty (txBuffer drv)).
  - split; [done|]. by left.
  - simpl. destruct (CircularBuffer.get SIZE (txBuffer drv)) as [[x|] b1]; simpl.
    + split; [done|]. right. by exists x.
    + split; [done|]. by left.
Qed.

Lemma handle_trace (drv : t) (tr : list HwEvent) :
  peripheralType (fst (handleTxCompleteInterrupt SIZE drv tr))
  = peripheralType drv /\
  (snd (handleTxCompleteInterrupt SIZE drv tr) = tr \/
   exists x, snd (handleTxCompleteInterrupt SIZE drv tr)
             = transmitByte x (fst (handleTxCompleteInterrupt SIZE drv tr)) tr).
Proof.
  unfold handleTxCompleteInterrupt.
  destruct (CircularBuffer.get SIZE (txBuffer drv)) as [[x|] b1]; simpl.
  - split; [done|]. right. by exists x.
  - split; [done|]. by left.
Qed.

(** Every call touches the hardware at most through one [transmitByte]. *)
Lemma exec_trace (c : call) (drv : t) (tr : list HwEvent) :
  peripheralType (snd (fst (exec SIZE c drv tr))) = peripheralType drv /\
  (snd (exec SIZE c drv tr) = tr \/
   exists x, snd (exec SIZE c drv tr)
             = transmitByte x (snd (fst (exec SIZE c drv tr))) tr).
Proof.
  destruct c as [d|ds|]; simpl.
  - unfold sendByte.
    destruct (CircularBuffer.put SIZE d (txBuffer drv)) as [ok b1].
    destruct (ok && negb (transmissionActive (set_txBuffer b1 drv))).
    + pose proof (startTransmission_trace (set_txBuffer b1 drv) tr) as H.
      destruct (startTransmission SIZE (set_txBuffer b1 drv) tr). exact H.
    + simpl. split; [done|]. by left.
  - destruct (sendData_loop SIZE ds 0 (txBuffer drv)) as [sent b1].
    destruct ((0 <? sent) && negb (transmissionActive drv)).
    + pose proof (startTransmission_trace (set_txBuffer b1 drv) tr) as H.
      destruct (startTransmission SIZE (set_txBuffer b1 drv) tr). exact H.
    + simpl. split; [done|]. by left.
  - pose proof (handle_trace drv tr) as H.
    destruct (handleTxCompleteInterrupt SIZE drv tr). exact H.
Qed.

(** The data register sees what [transmitByte] is given on the LPUART and
    nothing on a USART: kept by every call. *)
Lemma execs_tdr (cs : list call) (drv : t) (tr : list HwEvent) :
  lpuart_tdr tr
  = (if decide (peripheralType drv = LPUART_1)
     then handed (peripheralType drv) tr else []) ->
  lpuart_tdr (snd (execs SIZE cs drv tr))
  = (if decide (peripheralType drv = LPUART_1)
     then handed (peripheralType drv) (snd (execs SIZE cs drv tr)) else []).
Proof.
  revert drv tr. induction cs as [|c cs IH]; intros drv tr H; [done|].
  simpl. pose proof (exec_trace c drv tr) as (P & T).
  destruct (exec SIZE c drv tr) as [[a1 d1] t1]. simpl in P, T.
  specialize (IH d1 t1). rewrite P in IH.
  destruct (execs SIZE cs d1 t1) as [[a2 d2] t2]. simpl in *. apply IH.
  destruct T as [->|(x & ->)]; [done|].
  rewrite <- P in H |- *.
  rewrite lpuart_tdr_transmitByte, handed_transmitByte, H.
  destruct (peripheralType d1); by case_decide.
Qed.

End DriverMore.

Section DriverExtras.
Import UsartDriver.

(** X8.  [sendData] returns the number of bytes it queued, which is the
    smaller of the requested length and [getAvailableSpace()] at the time
    of the call: a request larger than the free space is cut to the free
    space. *)
Theorem sendData_count (SIZE : Z) (ds : list byte) (drv : t) (tr : list HwEvent) :
  pow2_capacity SIZE -> wf SIZE drv ->
  fst (fst (sendData SIZE (Some ds) drv tr))
  = Z.min (Z.of_nat (length ds)) (getAvailableSpace SIZE drv).
Proof.
  intros Hpow W.
  destruct (sendData_outcome SIZE Hpow ds drv tr W) as (k & d1 & t1 & E & M & _).
  rewrite E. simpl. rewrite M. unfold getAvailableSpace.
  by rewrite availableSpace_contents.
Qed.

Lemma sendData_count_witness :
  fst (fst (sendData 8 (Some [x01; x02; x03; x04; x05; x06; x07; x08; x09])
              (new LPUART_1 getDefaultLpuartConfig (repeat x00 8)) []))
  = Z.min (Z.of_nat (length [x01; x02; x03; x04; x05; x06; x07; x08; x09]))
      (getAvailableSpace 8 (new LPUART_1 getDefaultLpuartConfig (repeat x00 8))).
Proof.
  apply (sendData_count 8 [x01; x02; x03; x04; x05; x06; x07; x08; x09]
           (new LPUART_1 getDefaultLpuartConfig (repeat x00 8)) []
           pow2_capacity_8).
  by_evaluation.
Defined.

(** X9.  [sendData] accepts a prefix of the request and drops the rest:
    the bytes handed to [transmitByte] followed by the queue afterwards are
    those before the call followed by the first [sent] bytes of the
    request.  While a transmission is active it touches no hardware and
    only appends that prefix to the queue. *)
Theorem sendData_accepts_prefix (SIZE : Z) (ds : list byte) (drv : t)
    (tr : list HwEvent) :
  pow2_capacity SIZE -> wf SIZE drv ->
  let '(sent, drv', tr') := sendData SIZE (Some ds) drv tr in
  handed (peripheralType drv) tr' ++ queued SIZE drv'
  = handed (peripheralType drv) tr ++ queued SIZE drv
    ++ take (Z.to_nat sent) ds /\
  (transmissionActive drv = true ->
   tr' = tr /\ queued SIZE drv' = queued SIZE drv ++ take (Z.to_nat sent) ds) /\
  (0 < sent -> transmissionActive drv' = true).
Proof.
  intros Hpow W.
  destruct (sendData_outcome SIZE Hpow ds drv tr W)
    as (k & d1 & t1 & E & _ & _ & _ & H & A & _ & S).
  rewrite E, Nat2Z.id. split; [done|]. split.
  - intros Act. by destruct (A Act) as (? & _ & ?).
  - intros Pos. apply S. lia.
Qed.

Lemma sendData_accepts_prefix_witness :
  let '(sent, drv', tr') :=
    sendData 8 (Some [x01; x02; x03])
      (new LPUART_1 getDefaultLpuartConfig (repeat x00 8)) [] in
  handed LPUART_1 tr' ++ queued 8 drv'
  = handed LPUART_1 [] ++ queued 8
      (new LPUART_1 getDefaultLpuartConfig (repeat x00 8))
    ++ take (Z.to_nat sent) [x01; x02; x03] /\
  (transmissionActive (new LPUART_1 getDefaultLpuartConfig (repeat x00 8)) = true ->
   tr' = [] /\
   queued 8 drv' = queued 8 (new LPUART_1 getDefaultLpuartConfig (repeat x00 8))
                   ++ take (Z.to_nat sent) [x01; x02; x03]) /\
  (0 < sent -> transmissionActive drv' = true).
Proof.
  apply (sendData_accepts_prefix 8 [x01; x02; x03]
           (new LPUART_1 getDefaultLpuartConfig (repeat x00 8)) []
           pow2_capacity_8).
  by_evaluation.
Defined.

(** X10.  A [sendData] that queues nothing changes nothing: with a null
    pointer, with length 0, or whenever it returns 0 (the buffer was
    full), the driver and the hardware are exactly as before; in
    particular no transmission is started. *)
Theorem sendData_nothing_queued (SIZE : Z) (ds : list byte) (drv : t)
    (tr : list HwEvent) :
  pow2_capacity SIZE -> wf SIZE drv ->
  sendData SIZE None drv tr = (0, drv, tr) /\
  sendData SIZE (Some []) drv tr = (0, drv, tr) /\
  (fst (fst (sendData SIZE (Some ds) drv tr)) = 0 ->
   sendData SIZE (Some ds) drv tr = (0, drv, tr)) /\
  (getAvailableSpace SIZE drv = 0 ->
   sendData SIZE (Some ds) drv tr = (0, drv, tr)).
Proof.
  intros Hpow W.
  assert (forall l, fst (fst (sendData SIZE (Some l) drv tr)) = 0 ->
                    sendData SIZE (Some l) drv tr = (0, drv, tr)) as Z0.
  { intros l. destruct (sendData_outcome SIZE Hpow l drv tr W)
      as (k & d1 & t1 & E & _ & _ & _ & _ & _ & N & _).
    rewrite E. simpl. intros K. assert (k = 0%nat) as -> by lia.
    by destruct (N eq_refl) as [-> ->]. }
  split; [done|]. split; [|split].
  - apply Z0. destruct (sendData_outcome SIZE Hpow [] drv tr W)
      as (k & d1 & t1 & E & M & _). rewrite E. simpl in *. lia.
  - apply Z0.
  - intros A. apply Z0.
    destruct (sendData_outcome SIZE Hpow ds drv tr W) as (k & d1 & t1 & E & M & _).
    rewrite E. simpl. unfold getAvailableSpace in A.
    rewrite availableSpace_contents in A by done. unfold queued in M. lia.
Qed.

Lemma sendData_nothing_queued_witness :
  sendData 8 None (new LPUART_1 getDefaultLpuartConfig (repeat x00 8)) []
  = (0, new LPUART_1 getDefaultLpuartConfig (repeat x00 8), []) /\
  sendData 8 (Some []) (new LPUART_1 getDefaultLpuartConfig (repeat x00 8)) []
  = (0, new LPUART_1 getDefaultLpuartConfig (repeat x00 8), []) /\
  (fst (fst (sendData 8 (Some [])
               (new LPUART_1 getDefaultLpuartConfig (repeat x00 8)) [])) = 0 ->
   sendData 8 (Some []) (new LPUART_1 getDefaultLpuartConfig (repeat x00 8)) []
   = (0, new LPUART_1 getDefaultLpuartConfig (repeat x00 8), [])) /\
  (getAvailableSpace 8 (new LPUART_1 getDefaultLpuartConfig (repeat x00 8)) = 0 ->
   sendData 8 (Some []) (new LPUART_1 getDefaultLpuartConfig (repeat x00 8)) []
   = (0, new LPUART_1 getDefaultLpuartConfig (repeat x00 8), [])).
Proof.
  apply (sendData_nothing_queued 8 []
           (new LPUART_1 getDefaultLpuartConfig (repeat x00 8)) []
           pow2_capacity_8).
  by_evaluation.
Defined.

(** X11.  [sendByte] reports back-pressure: it returns [true] exactly when
    [getAvailableSpace()] was positive, and when it returns [false] the
    driver and the hardware are exactly as before (the byte is dropped,
    nothing already queued is disturbed). *)
Theorem sendByte_backpressure (SIZE : Z) (d : byte) (drv : t) (tr : list HwEvent) :
  pow2_capacity SIZE -> wf SIZE drv ->
  fst (fst (sendByte SIZE d drv tr)) = (0 <? getAvailableSpace SIZE drv) /\
  (fst (fst (sendByte SIZE d drv tr)) = false ->
   sendByte SIZE d drv tr = (false, drv, tr)).
Proof.
  intros Hpow W. pose proof (contents_bound SIZE Hpow (txBuffer drv)) as B.
  unfold getAvailableSpace. rewrite availableSpace_contents by done.
  destruct (Z.eq_dec (Z.of_nat (length (queued SIZE drv))) (SIZE - 1)) as [F|F].
  - rewrite (sendByte_full SIZE Hpow d drv tr W F). simpl.
    unfold queued in F. split; [|done]. symmetry. apply Z.ltb_ge. lia.
  - assert (Z.of_nat (length (queued SIZE drv)) < SIZE - 1) as R
      by (unfold queued in *; lia).
    assert (fst (fst (sendByte SIZE d drv tr)) = true) as T.
    { destruct (transmissionActive drv) eqn:A.
      - by destruct (sendByte_active SIZE Hpow d drv tr W R A) as (d1 & -> & _).
      - destruct (queued SIZE drv ++ [d]) as [|x q] eqn:Q.
        { by destruct (queued SIZE drv). }
        by destruct (sendByte_idle SIZE Hpow d drv tr x q W R A Q) as (d1 & -> & _). }
    rewrite T. split; [|done]. symmetry. apply Z.ltb_lt. unfold queued in R. lia.
Qed.

Lemma sendByte_backpressure_witness :
  fst (fst (sendByte 8 x2a (new LPUART_1 getDefaultLpuartConfig (repeat x00 8)) []))
  = (0 <? getAvailableSpace 8 (new LPUART_1 getDefaultLpuartConfig (repeat x00 8))) /\
  (fst (fst (sendByte 8 x2a
               (new LPUART_1 getDefaultLpuartConfig (repeat x00 8)) [])) = false ->
   sendByte 8 x2a (new LPUART_1 getDefaultLpuartConfig (repeat x00 8)) []
   = (false, new LPUART_1 getDefaultLpuartConfig (repeat x00 8), [])).
Proof.
  apply (sendByte_backpressure 8 x2a
           (new LPUART_1 getDefaultLpuartConfig (repeat x00 8)) []
           pow2_capacity_8).
  by_evaluation.
Defined.

(** X12.  Nothing waits in an idle driver: after any sequence of
    [sendByte], [sendData] and interrupt calls on a fresh driver, if
    [isTransmissionActive()] is [false] then [getQueueSize()] is 0 and
    [getAvailableSpace()] is [SIZE - 1]. *)
Theorem idle_means_drained (SIZE : Z) (p : PeripheralType) (cfg0 : Config)
    (mem : list byte) (cs : list call) :
  pow2_capacity SIZE -> length mem = Z.to_nat SIZE ->
  let drv := snd (fst (execs SIZE cs (new p cfg0 mem) [])) in
  isTransmissionActive drv = false ->
  getQueueSize SIZE drv = 0 /\ getAvailableSpace SIZE drv = SIZE - 1.
Proof.
  intros Hpow L.
  destruct (execs SIZE cs (new p cfg0 mem) []) as [[acc drv] tr] eqn:E.
  destruct (execs_inv SIZE Hpow cs (new p cfg0 mem) []
              (new_wf SIZE Hpow p cfg0 mem L)
              (fun _ => new_queued SIZE p cfg0 mem) _ _ _ E) as (W & I & _).
  simpl. intros A. pose proof (I A) as Q. unfold queued in Q.
  unfold getQueueSize, getAvailableSpace.
  rewrite size_contents, availableSpace_contents by done.
  rewrite Q. simpl. lia.
Qed.

Lemma idle_means_drained_witness :
  getQueueSize 8
    (snd (fst (execs 8 [SendData [x01; x02]; TxInterrupt; TxInterrupt]
                 (new LPUART_1 getDefaultLpuartConfig (repeat x00 8)) []))) = 0 /\
  getAvailableSpace 8
    (snd (fst (execs 8 [SendData [x01; x02]; TxInterrupt; TxInterrupt]
                 (new LPUART_1 getDefaultLpuartConfig (repeat x00 8)) []))) = 8 - 1.
Proof.
  apply (idle_means_drained 8 LPUART_1 getDefaultLpuartConfig (repeat x00 8)
           [SendData [x01; x02]; TxInterrupt; TxInterrupt] pow2_capacity_8).
  - reflexivity.
  - reflexivity.
Defined.

(** X13.  Only the LPUART reaches the wire.  After any sequence of calls on
    a fresh driver: for [LPUART_1] the bytes written to the transmit data
    register, followed by the bytes still queued, are exactly the accepted
    bytes in order; for [USART_1], [USART_2] and [USART_3] no byte is ever
    written to a data register, although the queue is consumed all the
    same. *)
Theorem only_lpuart_writes_data_register (SIZE : Z) (p : PeripheralType)
    (cfg0 : Config) (mem : list byte) (cs : list call) :
  pow2_capacity SIZE -> length mem = Z.to_nat SIZE ->
  let '(acc, drv, tr) := execs SIZE cs (new p cfg0 mem) [] in
  (p = LPUART_1 -> lpuart_tdr tr ++ queued SIZE drv = acc) /\
  (p <> LPUART_1 ->
   lpuart_tdr tr = [] /\ handed p tr ++ queued SIZE drv = acc).
Proof.
  intros Hpow L.
  pose proof (execs_tdr SIZE cs (new p cfg0 mem) []) as T.
  destruct (execs SIZE cs (new p cfg0 mem) []) as [[acc drv] tr] eqn:E.
  destruct (execs_inv SIZE Hpow cs (new p cfg0 mem) []
              (new_wf SIZE Hpow p cfg0 mem L)
              (fun _ => new_queued SIZE p cfg0 mem) _ _ _ E) as (_ & _ & _ & H).
  rewrite new_queued in H. simpl in H, T.
  assert (lpuart_tdr tr = if decide (p = LPUART_1) then handed p tr else []) as T'.
  { apply T. by case_decide. }
  split.
  - intros ->. rewrite T'. by case_decide.
  - intros Ne. rewrite T'. by case_decide.
Qed.

Lemma only_lpuart_writes_data_register_witness :
  let '(acc, drv, tr) :=
    execs 8 [SendData [x01; x02; x03]; TxInterrupt]
      (new USART_2 getDefaultUsartConfig (repeat x00 8)) [] in
  (USART_2 = LPUART_1 -> lpuart_tdr tr ++ queued 8 drv = acc) /\
  (USART_2 <> LPUART_1 ->
   lpuart_tdr tr = [] /\ handed USART_2 tr ++ queued 8 drv = acc).
Proof.
  apply (only_lpuart_writes_data_register 8 USART_2 getDefaultUsartConfig
           (repeat x00 8) [SendData [x01; x02; x03]; TxInterrupt]
           pow2_capacity_8).
  reflexivity.
Defined.

End DriverExtras.

(** * The text senders: [sendString], [sendHex], [sendBinary] *)

Section TextSenders.
Import UsartDriver.

(** X14.  [sendString] is [sendData] on the characters before the first
    NUL: characters after a NUL are never queued, the empty string and the
    null pointer queue nothing. *)
Theorem sendString_as_sendData (SIZE : Z) (s : list byte) (drv : t)
    (tr : list HwEvent) :
  sendString SIZE (Some s) drv tr = sendData SIZE (Some (c_string s)) drv tr /\
  sendString SIZE None drv tr = (0, drv, tr) /\
  forall rest, c_string (c_string s ++ x00 :: rest) = c_string s.
Proof.
  split; [|split; [done|]].
  - unfold sendString, sendData. by rewrite sendString_loop_eq.
  - intros rest. induction s as [|c s IH]; simpl; [done|].
    destruct (byte_val c =? 0) eqn:E; simpl; [done|]. by rewrite E, IH.
Qed.

(** X15.  [sendHex] is [sendData] on the hexadecimal text of the bytes: two
    characters per byte, high nibble first, so with a free space that is
    odd or too small the text is cut, possibly between the two characters
    of one byte. *)
Theorem sendHex_as_sendData (SIZE : Z) (ds : list byte) (uppercase : bool)
    (drv : t) (tr : list HwEvent) :
  sendHex SIZE (Some ds) uppercase drv tr
  = sendData SIZE (Some (hex_text uppercase ds)) drv tr /\
  sendHex SIZE None uppercase drv tr = (0, drv, tr) /\
  length (hex_text uppercase ds) = (2 * length ds)%nat.
Proof.
  split; [|split; [done|]].
  - unfold sendHex, sendData. by rewrite sendHex_loop_eq.
  - induction ds as [|d ds IH]; simpl; [done|]. rewrite IH. lia.
Qed.

(** X16.  The hexadecimal text is right: for every byte and either case,
    the two characters are hexadecimal digits whose values are the high
    and the low nibble, so [16 * high + low] is the byte; the upper-case
    text has no lower-case letter and the other way round. *)
Theorem hex_text_decodes (uppercase : bool) (d : byte) :
  hex_text uppercase [d] = [highNibbleChar uppercase d; lowNibbleChar uppercase d] /\
  hex_digit_value (highNibbleChar uppercase d) = Some (byte_val d / 16) /\
  hex_digit_value (lowNibbleChar uppercase d) = Some (byte_val d mod 16) /\
  (if uppercase
   then byte_val (highNibbleChar uppercase d) <= 70 /\
        byte_val (lowNibbleChar uppercase d) <= 70
   else ~ 65 <= byte_val (highNibbleChar uppercase d) <= 70 /\
        ~ 65 <= byte_val (lowNibbleChar uppercase d) <= 70).
Proof.
  split; [done|].
  destruct uppercase, d;
    (split; [reflexivity|]); (split; [reflexivity|]);
    repeat match goal with
           | |- context [byte_val ?x] =>
               let v := eval vm_compute in (byte_val x) in
               change (byte_val x) with v
           end; lia.
Qed.

(** X17.  [sendBinary] is [sendData] on the binary text of the bytes, eight
    characters per byte. *)
Theorem sendBinary_as_sendData (SIZE : Z) (ds : list byte) (drv : t)
    (tr : list HwEvent) :
  sendBinary SIZE (Some ds) drv tr
  = sendData SIZE (Some (binary_text ds)) drv tr /\
  sendBinary SIZE None drv tr = (0, drv, tr) /\
  length (binary_text ds) = (8 * length ds)%nat.
Proof.
  split; [|split; [done|]].
  - unfold sendBinary, sendData. by rewrite sendBinary_loop_eq.
  - induction ds as [|d ds IH]; [done|].
    change (binary_text (d :: ds)) with (bit_text d 8 ++ binary_text ds).
    rewrite length_app, IH. simpl. lia.
Qed.

(** X18.  The binary text is right: for every byte the eight characters
    are ['0'] or ['1'], most significant bit first, and read as a binary
    number they give the byte back. *)
Theorem binary_text_decodes (d : byte) :
  Forall (fun c => c = x30 \/ c = x31) (binary_text [d]) /\
  length (binary_text [d]) = 8%nat /\
  binary_value (binary_text [d]) = byte_val d.
Proof.
  destruct d; vm_compute; (split; [|split; reflexivity]);
    repeat (constructor; [by (left + right)|]); constructor.
Qed.

(** X19.  The text senders return how many characters they queued: the
    smaller of the text length (string length, twice or eight times the
    byte count) and [getAvailableSpace()] at the time of the call. *)
Theorem text_sender_counts (SIZE : Z) (s ds : list byte) (uppercase : bool)
    (drv : t) (tr : list HwEvent) :
  pow2_capacity SIZE -> wf SIZE drv ->
  fst (fst (sendString SIZE (Some s) drv tr))
  = Z.min (Z.of_nat (length (c_string s))) (getAvailableSpace SIZE drv) /\
  fst (fst (sendHex SIZE (Some ds) uppercase drv tr))
  = Z.min (2 * Z.of_nat (length ds)) (getAvailableSpace SIZE drv) /\
  fst (fst (sendBinary SIZE (Some ds) drv tr))
  = Z.min (8 * Z.of_nat (length ds)) (getAvailableSpace SIZE drv).
Proof.
  intros Hpow W.
  assert (forall l, fst (fst (sendData SIZE (Some l) drv tr))
                    = Z.min (Z.of_nat (length l)) (getAvailableSpace SIZE drv)) as C.
  { intros l.
    destruct (sendData_outcome SIZE Hpow l drv tr W) as (k & d1 & t1 & E & M & _).
    rewrite E. simpl. rewrite M. unfold getAvailableSpace.
    by rewrite availableSpace_contents. }
  split; [|split].
  - unfold sendString. rewrite sendString_loop_eq. apply (C (c_string s)).
  - unfold sendHex. rewrite sendHex_loop_eq.
    replace (2 * Z.of_nat (length ds))
      with (Z.of_nat (length (hex_text uppercase ds))); [apply C|].
    induction ds as [|d ds IH]; simpl; [done|]. simpl in IH. lia.
  - unfold sendBinary. rewrite sendBinary_loop_eq.
    replace (8 * Z.of_nat (length ds))
      with (Z.of_nat (length (binary_text ds))); [apply C|].
    induction ds as [|d ds IH]; [done|].
    change (binary_text (d :: ds)) with (bit_text d 8 ++ binary_text ds).
    rewrite length_app. simpl length at 1. simpl length at 2. lia.
Qed.

Lemma text_sender_counts_witness :
  fst (fst (sendString 8 (Some [x48; x69; x00; x21])
              (new LPUART_1 getDefaultLpuartConfig (repeat x00 8)) []))
  = Z.min (Z.of_nat (length (c_string [x48; x69; x00; x21])))
      (getAvailableSpace 8 (new LPUART_1 getDefaultLpuartConfig (repeat x00 8))) /\
  fst (fst (sendHex 8 (Some [x01; x23; x45; x67]) true
              (new LPUART_1 getDefaultLpuartConfig (repeat x00 8)) []))
  = Z.min (2 * Z.of_nat (length [x01; x23; x45; x67]))
      (getAvailableSpace 8 (new LPUART_1 getDefaultLpuartConfig (repeat x00 8))) /\
  fst (fst (sendBinary 8 (Some [x01; x23; x45; x67])
              (new LPUART_1 getDefaultLpuartConfig (repeat x00 8)) []))
  = Z.min (8 * Z.of_nat (length [x01; x23; x45; x67]))
      (getAvailableSpace 8 (new LPUART_1 getDefaultLpuartConfig (repeat x00 8))).
Proof.
  apply (text_sender_counts 8 [x48; x69; x00; x21] [x01; x23; x45; x67] true
           (new LPUART_1 getDefaultLpuartConfig (repeat x00 8)) []
           pow2_capacity_8).
  by_evaluation.
Defined.

End TextSenders.

(** * Clearing, draining and the interrupt registry *)

Section Lifecycle.
Import UsartDriver.

(** X20.  [clearBuffer()] throws the queued bytes away: afterwards the
    queue is empty with the whole capacity free, the Idle/Active flag is
    as it was, and no number of interrupts hands any of the discarded
    bytes to [transmitByte]; the first interrupt only sets the driver
    idle. *)
Theorem clearBuffer_drops_queue (SIZE : Z) (drv : t) (tr : list HwEvent)
    (n : nat) :
  pow2_capacity SIZE -> wf SIZE drv ->
  queued SIZE (clearBuffer drv) = [] /\
  getAvailableSpace SIZE (clearBuffer drv) = SIZE - 1 /\
  transmissionActive (clearBuffer drv) = transmissionActive drv /\
  handleTxCompleteInterrupt SIZE (clearBuffer drv) tr
  = (set_transmissionActive false (clearBuffer drv), tr) /\
  handed (peripheralType drv)
    (snd (execs SIZE (repeat TxInterrupt n) (clearBuffer drv) tr))
  = handed (peripheralType drv) tr.
Proof.
  intros Hpow W.
  assert (wf SIZE (clearBuffer drv)) as Wc by (by apply clear_wf).
  assert (queued SIZE (clearBuffer drv) = []) as Qc by apply clear_contents.
  split; [done|]. split.
  { unfold getAvailableSpace. rewrite availableSpace_contents by done.
    unfold queued in Qc. rewrite Qc. simpl. lia. }
  split; [done|]. split; [by apply handle_nil|].
  destruct (execs SIZE (repeat TxInterrupt n) (clearBuffer drv) tr)
    as [[a d1] t1] eqn:E.
  destruct (drain SIZE Hpow n (clearBuffer drv) tr Wc
              ltac:(rewrite Qc; simpl; lia) _ _ _ E) as (_ & _ & H & _).
  simpl in *. by rewrite H, Qc, app_nil_r.
Qed.

Lemma clearBuffer_drops_queue_witness :
  queued 8 (clearBuffer
              (snd (fst (sendData 8 (Some [x01; x02; x03])
                           (new LPUART_1 getDefaultLpuartConfig (repeat x00 8))
                           [])))) = [] /\
  getAvailableSpace 8
    (clearBuffer
       (snd (fst (sendData 8 (Some [x01; x02; x03])
                    (new LPUART_1 getDefaultLpuartConfig (repeat x00 8))
                    [])))) = 8 - 1 /\
  transmissionActive
    (clearBuffer
       (snd (fst (sendData 8 (Some [x01; x02; x03])
                    (new LPUART_1 getDefaultLpuartConfig (repeat x00 8)) []))))
  = transmissionActive
      (snd (fst (sendData 8 (Some [x01; x02; x03])
                   (new LPUART_1 getDefaultLpuartConfig (repeat x00 8)) []))) /\
  handleTxCompleteInterrupt 8
    (clearBuffer
       (snd (fst (sendData 8 (Some [x01; x02; x03])
                    (new LPUART_1 getDefaultLpuartConfig (repeat x00 8)) []))))
    [TransmitByte LPUART_1 x01; LL_LPUART_TransmitData8 x01]
  = (set_transmissionActive false
       (clearBuffer
          (snd (fst (sendData 8 (Some [x01; x02; x03])
                       (new LPUART_1 getDefaultLpuartConfig (repeat x00 8)) [])))),
     [TransmitByte LPUART_1 x01; LL_LPUART_TransmitData8 x01]) /\
  handed (peripheralType
            (snd (fst (sendData 8 (Some [x01; x02; x03])
                         (new LPUART_1 getDefaultLpuartConfig (repeat x00 8)) []))))
    (snd (execs 8 (repeat TxInterrupt 3)
            (clearBuffer
               (snd (fst (sendData 8 (Some [x01; x02; x03])
                            (new LPUART_1 getDefaultLpuartConfig (repeat x00 8))
                            []))))
            [TransmitByte LPUART_1 x01; LL_LPUART_TransmitData8 x01]))
  = handed (peripheralType
              (snd (fst (sendData 8 (Some [x01; x02; x03])
                           (new LPUART_1 getDefaultLpuartConfig (repeat x00 8)) []))))
      [TransmitByte LPUART_1 x01; LL_LPUART_TransmitData8 x01].
Proof.
  apply (clearBuffer_drops_queue 8
           (snd (fst (sendData 8 (Some [x01; x02; x03])
                        (new LPUART_1 getDefaultLpuartConfig (repeat x00 8)) [])))
           [TransmitByte LPUART_1 x01; LL_LPUART_TransmitData8 x01] 3
           pow2_capacity_8).
  by_evaluation.
Defined.

(** X21.  The driver always comes back to idle: from any state reached by
    calls on a fresh driver, more interrupts than there are queued bytes
    leave it idle with an empty queue, every accepted byte handed to
    [transmitByte] in order; a further interrupt then changes nothing. *)
Theorem returns_to_idle (SIZE : Z) (p : PeripheralType) (cfg0 : Config)
    (mem : list byte) (cs : list call) (n : nat) :
  pow2_capacity SIZE -> length mem = Z.to_nat SIZE ->
  let '(acc, drv, tr) := execs SIZE cs (new p cfg0 mem) [] in
  (length (queued SIZE drv) < n)%nat ->
  let '(_, drv', tr') := execs SIZE (repeat TxInterrupt n) drv tr in
  isTransmissionActive drv' = false /\ getQueueSize SIZE drv' = 0 /\
  handed p tr' = acc /\
  handleTxCompleteInterrupt SIZE drv' tr' = (drv', tr').
Proof.
  intros Hpow L.
  destruct (execs SIZE cs (new p cfg0 mem) []) as [[acc drv] tr] eqn:E.
  destruct (execs_inv SIZE Hpow cs (new p cfg0 mem) []
              (new_wf SIZE Hpow p cfg0 mem L)
              (fun _ => new_queued SIZE p cfg0 mem) _ _ _ E)
    as (W & I & P & H).
  rewrite new_queued in H. simpl in H, P. intros Ln.
  destruct (execs SIZE (repeat TxInterrupt n) drv tr) as [[a' drv'] tr'] eqn:E'.
  destruct (drain SIZE Hpow n drv tr W ltac:(lia) _ _ _ E') as (_ & Q' & H' & A').
  destruct (execs_inv SIZE Hpow _ drv tr W I _ _ _ E') as (W' & _).
  rewrite P in H'. split; [by apply A'|]. split.
  { unfold getQueueSize. rewrite size_contents by done.
    unfold queued in Q'. by rewrite Q'. }
  split; [by rewrite H', H|].
  rewrite (handle_nil SIZE Hpow drv' tr' W' Q'). f_equal.
  pose proof (A' Ln) as A. destruct drv'. simpl in A. by subst.
Qed.

Lemma returns_to_idle_witness :
  let '(_, drv', tr') :=
    execs 8 (repeat TxInterrupt 3)
      (snd (fst (execs 8 [SendData [x01; x02; x03]]
                   (new LPUART_1 getDefaultLpuartConfig (repeat x00 8)) [])))
      (snd (execs 8 [SendData [x01; x02; x03]]
              (new LPUART_1 getDefaultLpuartConfig (repeat x00 8)) [])) in
  isTransmissionActive drv' = false /\ getQueueSize 8 drv' = 0 /\
  handed LPUART_1 tr' = [x01; x02; x03] /\
  handleTxCompleteInterrupt 8 drv' tr' = (drv', tr').
Proof.
  apply (returns_to_idle 8 LPUART_1 getDefaultLpuartConfig (repeat x00 8)
           [SendData [x01; x02; x03]] 3 pow2_capacity_8 eq_refl).
  vm_compute. lia.
Defined.

End Lifecycle.

Section Registry.

(** X22.  Initialising an LPUART driver wires it to the interrupt: after
    [initialize] on a live [LPUART_1] driver of the 256-byte instantiation
    the call returns [true], the driver holds the new configuration with
    its queue and flag untouched, it is the registered instance, and the
    next interrupt dispatch runs its [handleTxCompleteInterrupt] and
    touches no other object. *)
Theorem initialize_then_dispatch (this : ptr) (cfg : Config) (w : World)
    (o : Object) :
  objects w !! this = Some o -> objSize o = 256 ->
  UsartDriver.peripheralType (objDriver o) = LPUART_1 ->
  exists w1 w2,
    World_initialize this cfg w = Some (true, w1) /\
    g_lpuart1Instance w1 = Some this /\
    objects w1 !! this
    = Some {| objSize := 256;
              objDriver := UsartDriver.set_config cfg (objDriver o) |} /\
    handleLpuart1Interrupt w1 = Some w2 /\
    objects w2 !! this
    = Some {| objSize := 256;
              objDriver :=
                fst (UsartDriver.handleTxCompleteInterrupt 256
                       (UsartDriver.set_config cfg (objDriver o)) (trace w1)) |} /\
    trace w2
    = snd (UsartDriver.handleTxCompleteInterrupt 256
             (UsartDriver.set_config cfg (objDriver o)) (trace w1)) /\
    forall q, q <> this -> objects w2 !! q = objects w !! q.
Proof.
  intros O S P. unfold World_initialize. rewrite O.
  unfold UsartDriver.initialize. simpl. rewrite P. simpl.
  eexists. eexists. split; [reflexivity|]. simpl. split; [reflexivity|].
  rewrite lookup_insert_eq, S. split; [reflexivity|]. split.
  { apply (registered_dispatch _ this
             {| objSize := 256;
                objDriver := UsartDriver.set_config cfg (objDriver o) |});
      simpl; [reflexivity | by rewrite lookup_insert_eq | reflexivity]. }
  simpl. rewrite lookup_insert_eq.
  split; [reflexivity|]. split; [reflexivity|].
  intros q Ne. by rewrite !lookup_insert_ne.
Qed.

Lemma initialize_then_dispatch_witness :
  exists w1 w2,
    World_initialize 1%positive getDefaultLpuartConfig
      {| objects := {[ 1%positive :=
                       {| objSize := 256;
                          objDriver := UsartDriver.new LPUART_1
                                         getDefaultUsartConfig (repeat x00 256) |} ]};
         g_lpuart1Instance := None; trace := [] |}
    = Some (true, w1) /\
    g_lpuart1Instance w1 = Some 1%positive /\
    objects w1 !! 1%positive
    = Some {| objSize := 256;
              objDriver :=
                UsartDriver.set_config getDefaultLpuartConfig
                  (objDriver
                     {| objSize := 256;
                        objDriver := UsartDriver.new LPUART_1
                                       getDefaultUsartConfig (repeat x00 256) |}) |} /\
    handleLpuart1Interrupt w1 = Some w2 /\
    objects w2 !! 1%positive
    = Some {| objSize := 256;
              objDriver :=
                fst (UsartDriver.handleTxCompleteInterrupt 256
                       (UsartDriver.set_config getDefaultLpuartConfig
                          (objDriver
                             {| objSize := 256;
                                objDriver := UsartDriver.new LPUART_1
                                  getDefaultUsartConfig (repeat x00 256) |}))
                       (trace w1)) |} /\
    trace w2
    = snd (UsartDriver.handleTxCompleteInterrupt 256
             (UsartDriver.set_config getDefaultLpuartConfig
                (objDriver
                   {| objSize := 256;
                      objDriver := UsartDriver.new LPUART_1
                        getDefaultUsartConfig (repeat x00 256) |}))
             (trace w1)) /\
    forall q, q <> 1%positive ->
      objects w2 !! q
      = objects
          {| objects := {[ 1%positive :=
                           {| objSize := 256;
                              objDriver := UsartDriver.new LPUART_1
                                getDefaultUsartConfig (repeat x00 256) |} ]};
             g_lpuart1Instance := None; trace := [] |} !! q.
Proof.
  apply (initialize_then_dispatch 1%positive getDefaultLpuartConfig
           {| objects := {[ 1%positive :=
                            {| objSize := 256;
                               objDriver := UsartDriver.new LPUART_1
                                 getDefaultUsartConfig (repeat x00 256) |} ]};
              g_lpuart1Instance := None; trace := [] |}).
  - reflexivity.
  - reflexivity.
  - reflexivity.
Defined.

(** X23.  A USART driver is never wired to the interrupt: [initialize] on
    a [USART_1], [USART_2] or [USART_3] driver returns [true] but leaves
    the registry as it was, so with nothing registered before, an
    interrupt dispatch afterwards still does nothing and the bytes that
    driver queued are never drained by it. *)
Theorem usart_initialize_never_registers (this : ptr) (cfg : Config)
    (w : World) (o : Object) :
  objects w !! this = Some o ->
  UsartDriver.peripheralType (objDriver o) <> LPUART_1 ->
  exists w1,
    World_initialize this cfg w = Some (true, w1) /\
    g_lpuart1Instance w1 = g_lpuart1Instance w /\
    (g_lpuart1Instance w = None -> handleLpuart1Interrupt w1 = Some w1).
Proof.
  intros O P. unfold World_initialize. rewrite O.
  unfold UsartDriver.initialize. simpl.
  destruct (UsartDriver.peripheralType (objDriver o)) eqn:T; [| | |done];
    (eexists; split; [reflexivity|]; simpl; split; [reflexivity|];
     intros G; unfold handleLpuart1Interrupt; simpl; by rewrite G).
Qed.

Lemma usart_initialize_never_registers_witness :
  exists w1,
    World_initialize 1%positive getDefaultUsartConfig
      {| objects := {[ 1%positive :=
                       {| objSize := 256;
                          objDriver := UsartDriver.new USART_1
                                         getDefaultUsartConfig (repeat x00 256) |} ]};
         g_lpuart1Instance := None; trace := [] |}
    = Some (true, w1) /\
    g_lpuart1Instance w1 = None /\
    (@None ptr = None -> handleLpuart1Interrupt w1 = Some w1).
Proof.
  apply (usart_initialize_never_registers 1%positive getDefaultUsartConfig
           {| objects := {[ 1%positive :=
                            {| objSize := 256;
                               objDriver := UsartDriver.new USART_1
                                 getDefaultUsartConfig (repeat x00 256) |} ]};
              g_lpuart1Instance := None; trace := [] |}
           {| objSize := 256;
              objDriver := UsartDriver.new USART_1
                             getDefaultUsartConfig (repeat x00 256) |}).
  - reflexivity.
  - discriminate.
Defined.

(** X24.  The last registration wins: when two different LPUART driver
    objects are initialised one after the other, only the second is
    registered; an interrupt dispatch then runs the second driver's
    handler and leaves the first driver exactly as its own [initialize]
    left it, so bytes queued in the first are not drained. *)
Theorem registration_last_wins (this1 this2 : ptr) (cfg1 cfg2 : Config)
    (w : World) (o1 o2 : Object) :
  this1 <> this2 ->
  objects w !! this1 = Some o1 -> objects w !! this2 = Some o2 ->
  UsartDriver.peripheralType (objDriver o1) = LPUART_1 ->
  UsartDriver.peripheralType (objDriver o2) = LPUART_1 ->
  objSize o2 = 256 ->
  exists w1 w2 w3,
    World_initialize this1 cfg1 w = Some (true, w1) /\
    g_lpuart1Instance w1 = Some this1 /\
    World_initialize this2 cfg2 w1 = Some (true, w2) /\
    g_lpuart1Instance w2 = Some this2 /\
    handleLpuart1Interrupt w2 = Some w3 /\
    objects w3 !! this1
    = Some {| objSize := objSize o1;
              objDriver := UsartDriver.set_config cfg1 (objDriver o1) |} /\
    objects w3 !! this2
    = Some {| objSize := 256;
              objDriver :=
                fst (UsartDriver.handleTxCompleteInterrupt 256
                       (UsartDriver.set_config cfg2 (objDriver o2)) (trace w2)) |}.
Proof.
  intros Ne O1 O2 P1 P2 S2. unfold World_initialize. rewrite O1.
  unfold UsartDriver.initialize. simpl. rewrite P1. simpl.
  eexists. eexists. eexists. split; [reflexivity|]. simpl.
  split; [reflexivity|]. rewrite lookup_insert_ne by done. rewrite O2.
  simpl. rewrite P2. simpl. split; [reflexivity|]. simpl.
  split; [reflexivity|]. split.
  { apply (registered_dispatch _ this2
             {| objSize := objSize o2;
                objDriver := UsartDriver.set_config cfg2 (objDriver o2) |});
      simpl; [reflexivity | by rewrite lookup_insert_eq | exact S2]. }
  simpl. rewrite lookup_insert_ne by done. rewrite lookup_insert_ne by done.
  rewrite lookup_insert_eq. split; [reflexivity|].
  by rewrite lookup_insert_eq.
Qed.

Lemma registration_last_wins_witness :
  exists w1 w2 w3,
    World_initialize 1%positive getDefaultLpuartConfig
      {| objects :=
           <[ 2%positive :=
              {| objSize := 256;
                 objDriver := UsartDriver.new LPUART_1
                                getDefaultLpuartConfig (repeat x00 256) |} ]>
             {[ 1%positive :=
                {| objSize := 256;
                   objDriver := UsartDriver.new LPUART_1
                                  getDefaultLpuartConfig (repeat x00 256) |} ]};
         g_lpuart1Instance := None; trace := [] |}
    = Some (true, w1) /\
    g_lpuart1Instance w1 = Some 1%positive /\
    World_initialize 2%positive getDefaultLpuartConfig w1 = Some (true, w2) /\
    g_lpuart1Instance w2 = Some 2%positive /\
    handleLpuart1Interrupt w2 = Some w3 /\
    objects w3 !! 1%positive
    = Some {| objSize := 256;
              objDriver :=
                UsartDriver.set_config getDefaultLpuartConfig
                  (UsartDriver.new LPUART_1 getDefaultLpuartConfig
                     (repeat x00 256)) |} /\
    objects w3 !! 2%positive
    = Some {| objSize := 256;
              objDriver :=
                fst (UsartDriver.handleTxCompleteInterrupt 256
                       (UsartDriver.set_config getDefaultLpuartConfig
                          (UsartDriver.new LPUART_1 getDefaultLpuartConfig
                             (repeat x00 256)))
                       (trace w2)) |}.
Proof.
  apply (registration_last_wins 1%positive 2%positive
           getDefaultLpuartConfig getDefaultLpuartConfig
           {| objects :=
                <[ 2%positive :=
                   {| objSize := 256;
                      objDriver := UsartDriver.new LPUART_1
                                     getDefaultLpuartConfig (repeat x00 256) |} ]>
                  {[ 1%positive :=
                     {| objSize := 256;
                        objDriver := UsartDriver.new LPUART_1
                                       getDefaultLpuartConfig (repeat x00 256) |} ]};
              g_lpuart1Instance := None; trace := [] |}
           {| objSize := 256;
              objDriver := UsartDriver.new LPUART_1
                             getDefaultLpuartConfig (repeat x00 256) |}
           {| objSize := 256;
              objDriver := UsartDriver.new LPUART_1
                             getDefaultLpuartConfig (repeat x00 256) |}).
  - discriminate.
  - reflexivity.
  - reflexivity.
  - reflexivity.
  - reflexivity.
  - reflexivity.
Defined.

End Registry.
